(** * HowdyScreen: the Python audio servers, embedded and verified

    A shallow embedding of

    - [howdytts_esp32_server.py]: the UDP audio server
      ([ESP32AudioServer.receive_audio], [ESP32AudioServer.send_audio]) and
      the segmentation loop
      ([HowdyTTSESP32Integration.process_audio_stream]);
    - [tools/howdytts_test_server.py]: the WebSocket message loop
      ([HowdyTTSTestServer.websocket_endpoint]), its dispatcher
      ([HowdyTTSTestServer.handle_websocket_message]) and the HTTP device
      registry ([register_device_endpoint], [list_devices_endpoint]);

    and, taken from the specification because no source implements it,
    the session state machine of the stream transport ([ReplySession]).

    Conventions.  Python exceptions are values of [exn] carried by the
    [result] monad; mutations made before a [raise] stay visible, so a
    [try] body returns its state and effects next to its [result].
    Input and output (socket, logger, clock, queue polls) are explicit: the
    outcome of every blocking call is an input of the iteration, and what
    the code logs or transmits is returned as a list of effects.  Bytes are
    [Byte.byte]; little-endian integers go through coqutil's
    [le_split]/[le_combine].  Clock readings ([time.time()], a float number
    of seconds) are the rationals they stand for.  The timestamp of the
    send loop, [int(time.time() * 1000)], is taken from the product
    rounded to binary64 ([float.mul]); the differences and quotients of
    the segmentation loop are exact.

    Assumed of the environment: a socket or a WebSocket that is given a
    message takes it ([sendto], [send_str] and [send_bytes] do not raise),
    and the logger does not fail. *)

From Stdlib Require Import ZArith QArith Qround Qabs Lia List.
From coqutil Require Import Byte Word.LittleEndianList.
From stdpp Require Import gmap strings list fin_maps pretty.

Local Open Scope Z_scope.

(* ===================================================================== *)
(** ** Python: exceptions, slices, [range], [int] *)
(* ===================================================================== *)

Module Py.

(** The exception classes the modelled code can meet.  All but
    [KeyboardInterrupt] derive from [Exception]. *)
Inductive exn : Type :=
| socket_timeout          (* socket.timeout *)
| OSError                 (* any other socket failure *)
| struct_error            (* struct.error *)
| ValueError
| AttributeError
| TypeError
| JSONDecodeError
| RecursionError
| OverflowError
| queue_Empty             (* queue.Empty *)
| KeyboardInterrupt.

#[global] Instance exn_eq_dec : EqDecision exn.
Proof. solve_decision. Defined.

(** [isinstance(e, Exception)] *)
Definition is_Exception (e : exn) : bool :=
  match e with KeyboardInterrupt => false | _ => true end.

Inductive result (A : Type) : Type :=
| Ok (a : A)
| Raise (e : exn).
Arguments Ok {A} a.
Arguments Raise {A} e.

#[global] Instance result_ret : MRet result := @Ok.
#[global] Instance result_bind : MBind result := fun A B k r =>
  match r with Ok a => k a | Raise e => Raise e end.

(** A statement block: it runs on a state [S], appends effects of type
    [E], and ends normally or by raising.  What was mutated or emitted
    before a [raise] is kept. *)
Definition prog (S E : Type) : Type -> Type :=
  fun A => S -> S * list E * result A.

#[global] Instance prog_ret {S E} : MRet (prog S E) :=
  fun A a s => (s, [], Ok a).
#[global] Instance prog_bind {S E} : MBind (prog S E) := fun A B k m s =>
  match m s with
  | (s1, es1, Ok a) => let '(s2, es2, r) := k a s1 in (s2, es1 ++ es2, r)
  | (s1, es1, Raise e) => (s1, es1, Raise e)
  end.

Definition gets {S E A} (f : S -> A) : prog S E A :=
  fun s => (s, [], Ok (f s)).
Definition modify {S E} (f : S -> S) : prog S E unit :=
  fun s => (f s, [], Ok tt).
Definition emit {S E} (e : E) : prog S E unit :=
  fun s => (s, [e], Ok tt).
Definition lift {S E A} (r : result A) : prog S E A :=
  fun s => (s, [], r).
Definition pass {S E} : prog S E unit := mret tt.

(** [try: body / except ...: handler]: [clauses e] is the handler of the
    first [except] clause matching [e], if any.  An exception raised by a
    handler is not offered to the sibling clauses. *)
Definition try_except {S E A} (body : prog S E A)
    (clauses : exn -> option (prog S E A)) : prog S E A := fun s =>
  match body s with
  | (s1, es1, Raise e) =>
      match clauses e with
      | Some handler =>
          let '(s2, es2, r) := handler s1 in (s2, es1 ++ es2, r)
      | None => (s1, es1, Raise e)
      end
  | done => done
  end.

(** [try: body / finally: cleanup], for a [cleanup] that does not
    raise: it runs either way, and an exception of [body] goes on. *)
Definition try_finally {S E A} (body : prog S E A)
    (cleanup : prog S E unit) : prog S E A := fun s =>
  let '(s1, es1, r) := body s in
  let '(s2, es2, _) := cleanup s1 in
  (s2, es1 ++ es2, r).

(** [l[i:j]] for [0 <= i], [0 <= j]: out-of-range bounds are clamped. *)
Definition slice {A} (l : list A) (i j : nat) : list A :=
  take (j - i) (drop i l).

(** [range(start, stop, step)] for a positive [step], unrolled the way the
    [for] statement consumes it.  [stop] iterations of fuel are enough. *)
Fixpoint range_from (fuel : nat) (i stop step : nat) : list nat :=
  match fuel with
  | O => []
  | S fuel' =>
      if (i <? stop)%nat then i :: range_from fuel' (i + step) stop step
      else []
  end.

Definition range (start stop step : nat) : list nat :=
  range_from stop start stop step.

(** [int(x)] on a float: truncation towards zero. *)
Definition int (x : Q) : Z := Z.quot (Qnum x) (Z.pos (Qden x)).

(** *** Float arithmetic

    A Python float is an IEEE 754 binary64 number.  The finite ones are
    rationals; the result of an operation is the exact result rounded to
    the nearest binary64 number, ties to the even significand, and an
    infinity ([None]) when that is [2^1024] or more in magnitude. *)
Module float.

(** The nearest integer, ties to the even one. *)
Definition round_half_even (x : Q) : Z :=
  let n := Qfloor x in
  match (x - inject_Z n ?= 1 # 2)%Q with
  | Lt => n
  | Gt => n + 1
  | Eq => if Z.even n then n else n + 1
  end.

(** [floor (log2 x)] for [0 < x]. *)
Definition ilog2 (x : Q) : Z :=
  let e := Z.log2 (Qnum x) - Z.log2 (Z.pos (Qden x)) in
  if Qle_bool (2 ^ e) x then e else e - 1.

(** The spacing of the binary64 numbers around [x], for [0 < x]: 53
    significant bits, and [2^-1074] in the subnormal range. *)
Definition ulp (x : Q) : Q := (2 ^ Z.max (ilog2 x - 52) (-1074))%Q.

Definition round (x : Q) : option Q :=
  if Qeq_bool x 0 then Some 0%Q
  else
    let a := Qabs x in
    let r := (inject_Z (round_half_even (a / ulp a)) * ulp a)%Q in
    if Qle_bool (2 ^ 1024) r then None
    else Some (if Qle_bool 0 x then r else (- r)%Q).

(** [x * y] on floats *)
Definition mul (x y : Q) : option Q := round (x * y).

(** [int(x)] on the result of a float operation: [OverflowError] on an
    infinity. *)
Definition to_int (x : option Q) : result Z :=
  match x with
  | Some x => Ok (int x)
  | None => Raise OverflowError
  end.

End float.

End Py.

Export Py.

(* ===================================================================== *)
(** ** [struct]: the ['<IHH'] header *)
(* ===================================================================== *)

Module struct.

Abbreviation bytes := (list byte).

(** One unsigned little-endian field of [n] bytes.  With the ['<'] prefix
    [struct.pack] raises [struct.error] when the value does not fit. *)
Definition pack_uint (n : nat) (v : Z) : result bytes :=
  if (0 <=? v) && (v <? 2 ^ (8 * Z.of_nat n)) then Ok (le_split n v)
  else Raise struct_error.

(** [struct.pack('<IHH', a, b, c)] *)
Definition pack_IHH (a b c : Z) : result bytes :=
  x ← pack_uint 4 a;
  y ← pack_uint 2 b;
  z ← pack_uint 2 c;
  mret (x ++ y ++ z).

(** [struct.unpack('<IHH', buf)]: the buffer must hold exactly 8 bytes. *)
Definition unpack_IHH (buf : bytes) : result (Z * Z * Z) :=
  if (length buf =? 8)%nat then
    Ok (le_combine (slice buf 0 4),
        le_combine (slice buf 4 6),
        le_combine (slice buf 6 8))
  else Raise struct_error.

End struct.

(* ===================================================================== *)
(** ** [numpy]: int16 arrays *)
(* ===================================================================== *)

Module np.

Import struct.

(** The value of two little-endian bytes read as a signed 16-bit sample. *)
Definition int16_of_bytes (lo hi : byte) : Z :=
  let u := le_combine [lo; hi] in
  if u <? 32768 then u else u - 65536.

Fixpoint int16_pairs (buf : bytes) : list Z :=
  match buf with
  | lo :: hi :: rest => int16_of_bytes lo hi :: int16_pairs rest
  | _ => []
  end.

(** [np.frombuffer(buf, dtype=np.int16)]: [ValueError] unless the buffer
    size is a multiple of the element size. *)
Definition frombuffer (buf : bytes) : result (list Z) :=
  if (length buf mod 2 =? 0)%nat then Ok (int16_pairs buf)
  else Raise ValueError.

(** [a.tobytes()] on an int16 array: two bytes per sample, two's
    complement, little-endian. *)
Definition tobytes (a : list Z) : bytes :=
  flat_map (le_split 2) a.

(** [np.pad(a, (0, n), mode='constant')] *)
Definition pad (a : list Z) (n : nat) : list Z := a ++ replicate n 0.

(** An array as [send_audio] receives it: already int16, or of another
    numeric dtype with elements in [F]. *)
Inductive ndarray (F : Type) : Type :=
| int16_array (a : list Z)
| other_array (a : list F).
Arguments int16_array {F} a.
Arguments other_array {F} a.

End np.

(* ===================================================================== *)
(** ** What the servers write to the logger and to the sockets *)
(* ===================================================================== *)

Abbreviation address := (string * Z)%type.

Inductive level : Type := INFO | WARNING | ERROR.

(** The formatted log lines, by their template. *)
Inductive log_record : Type :=
| connected_from (addr : address)   (* "ESP32P4 connected from {addr}" *)
| error_receiving (e : exn)         (* "Error receiving audio: {e}" *)
| no_client_connected               (* "No ESP32P4 client connected" *)
| sending_samples (n : nat)         (* "Sending {n} samples to ESP32P4" *)
| starting_loop                     (* "Starting audio processing loop" *)
| processing_audio (seconds : Q)    (* "Processing {d:.1f}s of audio" *)
| transcribed (text : string)       (* "Transcribed: {text}" *)
| response (text : string)          (* "Response: {text}" *)
| no_speech_detected                (* "No speech detected in audio" *)
| error_processing (e : exn)        (* "Error processing audio: {e}" *)
| shutting_down                     (* "Shutting down..." *)
| unexpected_error (e : exn).       (* "Unexpected error: {e}" *)

Inductive effect : Type :=
| log (lvl : level) (r : log_record)
| sendto (packet : list byte) (addr : address)   (* sock.sendto *)
| sleep (seconds : Q)                            (* time.sleep *)
| transcribe_call (audio : list Q).              (* whisper_model.transcribe *)

(** The ERROR lines among the effects: the only count of errors the servers
    keep. *)
Definition is_error (e : effect) : bool :=
  match e with log ERROR _ => true | _ => false end.

Definition error_count (es : list effect) : nat :=
  length (filter (fun e => is_error e = true) es).

(** The addresses announced by a connect notification. *)
Definition connect_notifications (es : list effect) : list address :=
  omap (fun e => match e with
                 | log INFO (connected_from a) => Some a
                 | _ => None
                 end) es.

(** The datagrams handed to the socket, in order. *)
Definition packets_sent (es : list effect) : list (list byte) :=
  omap (fun e => match e with sendto p _ => Some p | _ => None end) es.

(** The utterances handed to the speech-to-text collaborator, in order. *)
Definition utterances (es : list effect) : list (list Q) :=
  omap (fun e => match e with transcribe_call a => Some a | _ => None end) es.

(* ===================================================================== *)
(** ** [class ESP32AudioServer] *)
(* ===================================================================== *)

Module ESP32AudioServer.

Import struct.

Record t : Type := mk {
  client_address : option address;
  audio_queue : list (list Z);      (* queue.Queue of int16 arrays *)
  running : bool                    (* threading.Event *)
}.

Definition set_client_address (a : address) (self : t) : t :=
  mk (Some a) (audio_queue self) (running self).

(** [self.audio_queue.put(x)]: the queue is unbounded, [put] never
    blocks. *)
Definition audio_queue_put (x : list Z) (self : t) : t :=
  mk (client_address self) (audio_queue self ++ [x]) (running self).

(** [sock.recvfrom(bufsize)]: what the network hands over is cut to
    [bufsize] bytes; a timeout or a socket failure raises. *)
Definition recvfrom (bufsize : nat) (net : result (bytes * address))
    : result (bytes * address) :=
  '(data, addr) ← net; mret (take bufsize data, addr).

(** Lines 59-60: the header, then [data_size] bytes of payload (fewer
    when the datagram is shorter: a slice is clamped). *)
Definition parse_packet (data : bytes) : result (Z * Z * Z * bytes) :=
  '(timestamp, sequence, data_size) ← unpack_IHH (slice data 0 8);
  mret (timestamp, sequence, data_size,
        slice data 8 (8 + Z.to_nat data_size)).

(** The wire format: [struct.pack('<IHH', ...) + payload]. *)
Definition frame (timestamp sequence data_size : Z) (payload : bytes)
    : result bytes :=
  header ← pack_IHH timestamp sequence data_size;
  mret (header ++ payload).

(** Lines 96-97: the packet of one chunk of samples. *)
Definition build_packet (timestamp sequence : Z) (chunk : list Z)
    : result bytes :=
  frame timestamp sequence (Z.of_nat (length chunk) * 2)
    (np.tobytes chunk).

(** The [data_size] field of a datagram's header, and the payload slice
    [data[8:8+data_size]] it selects. *)
Definition payload_size (data : bytes) : Z :=
  le_combine (slice data 6 8).

Definition audio_data (data : bytes) : bytes :=
  slice data 8 (8 + Z.to_nat (payload_size data)).

(** Lines 53-55: save the client address for the response. *)
Definition track_endpoint (addr : address) : prog t effect unit :=
  current ← gets client_address;
  if decide (current ≠ Some addr) then
    modify (set_client_address addr);;
    emit (log INFO (connected_from addr))
  else pass.

(** One turn of the [while] loop of [receive_audio]. *)
Definition receive_iteration (net : result (bytes * address))
    : prog t effect unit :=
  try_except
    ('(data, addr) ← lift (recvfrom 256 net);
     track_endpoint addr;;
     if (8 <=? length data)%nat then
       '(timestamp, sequence, data_size, audio_data) ←
         lift (parse_packet data);
       audio_samples ← lift (np.frombuffer audio_data);
       modify (audio_queue_put audio_samples)
     else pass)
    (fun e =>
       match e with
       | socket_timeout => Some pass                      (* continue *)
       | _ =>
           if is_Exception e
           then Some (emit (log ERROR (error_receiving e)))
           else None
       end).

(** [receive_audio], over the outcomes of the successive [recvfrom]
    calls. *)
Fixpoint receive_audio (nets : list (result (bytes * address)))
    : prog t effect unit :=
  match nets with
  | [] => pass
  | net :: rest =>
      go ← gets running;
      if go : bool then receive_iteration net;; receive_audio rest
      else pass
  end.

(** The sender of the last datagram among the outcomes [nets], [init] if
    there is none. *)
Definition last_sender (init : option address)
    (nets : list (result (bytes * address))) : option address :=
  foldl (fun acc net =>
           match net with Ok (_, addr) => Some addr | Raise _ => acc end)
    init nets.

(** Lines 88-92: the [i]-th slice of the waveform, zero-padded to
    [chunk_size] samples when it is the short last one. *)
Definition padded_chunk (audio_samples : list Z) (i : nat) : list Z :=
  let chunk_size := 320%nat in
  let chunk := slice audio_samples i (i + chunk_size) in
  if (length chunk <? chunk_size)%nat
  then np.pad chunk (chunk_size - length chunk)
  else chunk.

(** Line 95: [int(time.time() * 1000)], for the reading [now] of
    [time.time()].  The product is a float product: it is rounded before
    it is truncated. *)
Definition timestamp_ms (now : Q) : result Z :=
  float.to_int (float.mul now 1000).

(** The reading [now] gives a timestamp that the 32-bit field of the
    header can hold. *)
Definition fits_uint32 (now : Q) : Prop :=
  ∃ timestamp, timestamp_ms now = Ok timestamp ∧ 0 <= timestamp < 2 ^ 32.

(** The packet of turn [j] of the [for] loop: index [j * 320], sequence
    number [j], and the [j]-th reading of the clock. *)
Definition nth_packet (audio_samples : list Z) (clock : nat -> Q)
    (j : nat) : result bytes :=
  timestamp ← timestamp_ms (clock j);
  build_packet timestamp (Z.of_nat j)
    (padded_chunk audio_samples (j * 320)).

Section send.

(** Element type of a non-int16 array, with
    [(x * 32767).astype(np.int16)] on one element. *)
Context {F : Type} (scale_int16 : F -> Z).

(** Lines 78-79: convert to int16 if needed. *)
Definition to_int16 (audio_samples : np.ndarray F) : list Z :=
  match audio_samples with
  | np.int16_array a => a
  | np.other_array a => scale_int16 <$> a
  end.

(** [self.sock.sendto(packet, self.client_address)]: the socket takes
    every datagram it is given an address for. *)
Definition sock_sendto (packet : bytes) : prog t effect unit :=
  dest ← gets client_address;
  match dest with
  | Some addr => emit (sendto packet addr)
  | None => lift (Raise TypeError)
  end.

(** The body of the [for] loop of [send_audio], over the remaining
    indices.  [clock k] is the [k]-th reading of [time.time()]. *)
Fixpoint send_chunks (audio_samples : list Z) (clock : nat -> Q)
    (indices : list nat) (k : nat) (sequence : Z) : prog t effect unit :=
  match indices with
  | [] => pass
  | i :: rest =>
      let chunk := padded_chunk audio_samples i in
      timestamp ← lift (timestamp_ms (clock k));
      packet ← lift (build_packet timestamp sequence chunk);
      sock_sendto packet;;
      emit (sleep 0.018);;
      send_chunks audio_samples clock rest (S k) (sequence + 1)
  end.

Definition send_audio (audio_samples : np.ndarray F) (clock : nat -> Q)
    : prog t effect unit :=
  bound ← gets client_address;
  match bound with
  | None => emit (log WARNING no_client_connected)
  | Some addr =>
      let audio_samples := to_int16 audio_samples in
      let chunk_size := 320%nat in
      emit (log INFO (sending_samples (length audio_samples)));;
      send_chunks audio_samples clock
        (range 0 (length audio_samples) chunk_size) 0 0
  end.

End send.

End ESP32AudioServer.

(* ===================================================================== *)
(** ** [class HowdyTTSESP32Integration] *)
(* ===================================================================== *)

Module HowdyTTSESP32Integration.

(** [x < y] on floats *)
Definition Qltb (x y : Q) : bool := negb (Qle_bool y x).

(** The audio processing parameters set by [__init__]. *)
Record t : Type := mk {
  sample_rate : positive;
  silence_threshold_ms : Q;
  min_audio_length : Q              (* seconds *)
}.

Definition defaults : t := mk 16000 500 0.5.

(** The local variables of [process_audio_stream]. *)
Record locals : Type := mk_locals {
  audio_buffer : list Z;
  last_audio_time : Q;
  processing : bool
}.

Definition extend (chunk : list Z) (l : locals) : locals :=
  mk_locals (audio_buffer l ++ chunk) (last_audio_time l) (processing l).
Definition set_audio_buffer (b : list Z) (l : locals) : locals :=
  mk_locals b (last_audio_time l) (processing l).
Definition set_last_audio_time (x : Q) (l : locals) : locals :=
  mk_locals (audio_buffer l) x (processing l).
Definition set_processing (p : bool) (l : locals) : locals :=
  mk_locals (audio_buffer l) (last_audio_time l) p.

(** What one turn of the loop meets: the outcome of
    [audio_queue.get(timeout=0.02)], the reading of [time.time()] it
    takes, and, should a reply be sent, the audio server as the receiver
    thread left it and the clock readings of [send_audio]. *)
Record turn : Type := mk_turn {
  get : result (list Z);
  now : Q;
  audio_server : ESP32AudioServer.t;
  clock : nat -> Q
}.

Inductive flow : Type := next | break.

(** Runs a method of another object; [send_audio] is the only one called
    and it leaves its object as it was. *)
Definition on_object {S' S E A} (obj : S') (m : prog S' E A) : prog S E A :=
  fun s => let '(_, es, r) := m obj in (s, es, r).

(** [process_query]: the example echo response. *)
Definition process_query (text : string) : string :=
  ("You said: " ++ text)%string.

Section loop.

(** The collaborators: Whisper ([transcribe] stands for
    [whisper_model.transcribe(...)["text"].strip()], which may raise)
    and the tone generator of [text_to_speech], a float array. *)
Context {F : Type} (scale_int16 : F -> Z).
Variable transcribe : list Q -> result string.
Variable text_to_speech : string -> list F.

Variable self : t.

(** Lines 250-270: the body of the inner [try]. *)
Definition reply (env : turn) (audio_array : list Q)
    : prog locals effect unit :=
  emit (transcribe_call audio_array);;
  text ← lift (transcribe audio_array);
  if negb (String.eqb text "") then
    emit (log INFO (transcribed text));;
    let response_text := process_query text in
    emit (log INFO (response response_text));;
    let audio_response := text_to_speech response_text in
    on_object (audio_server env)
      (ESP32AudioServer.send_audio scale_int16
         (np.other_array audio_response) (clock env))
  else emit (log INFO no_speech_detected).

(** [len(audio_buffer) / self.sample_rate], in seconds. *)
Definition duration (buffer : list Z) : Q :=
  inject_Z (Z.of_nat (length buffer)) / inject_Z (Z.pos (sample_rate self)).

(** [np.array(audio_buffer, dtype=np.float32) / 32768.0]: every int16
    value divided by [2^15] is a float32, so the quotient is exact. *)
Definition normalized (buffer : list Z) : list Q :=
  (fun x => inject_Z x / 32768)%Q <$> buffer.

(** The [except queue.Empty] clause. *)
Definition on_empty (env : turn) : prog locals effect flow :=
  last ← gets last_audio_time;
  let silence_duration := ((now env - last) * 1000)%Q in
  buffer ← gets audio_buffer;
  busy ← gets processing;
  if negb (length buffer =? 0)%nat
     && Qltb (silence_threshold_ms self) silence_duration
     && negb busy
  then
    let audio_duration := duration buffer in
    if Qltb audio_duration (min_audio_length self) then
      modify (set_audio_buffer []);;
      mret next                                          (* continue *)
    else
      modify (set_processing true);;
      emit (log INFO (processing_audio audio_duration));;
      let audio_array := normalized buffer in
      try_except (reply env audio_array)
        (fun e =>
           if is_Exception e
           then Some (emit (log ERROR (error_processing e)))
           else None);;
      modify (set_audio_buffer []);;
      modify (set_processing false);;
      mret next
  else mret next.

(** One turn of the [while True] loop. *)
Definition process_iteration (env : turn) : prog locals effect flow :=
  try_except
    (audio_chunk ← lift (get env);
     modify (extend audio_chunk);;
     modify (set_last_audio_time (now env));;
     modify (set_processing false);;
     mret next)
    (fun e =>
       match e with
       | queue_Empty => Some (on_empty env)
       | KeyboardInterrupt =>
           Some (emit (log INFO shutting_down);; mret break)
       | _ =>
           if is_Exception e
           then Some (emit (log ERROR (unexpected_error e));; mret next)
           else None
       end).

Fixpoint process_loop (envs : list turn) : prog locals effect unit :=
  match envs with
  | [] => pass
  | env :: rest =>
      f ← process_iteration env;
      match f with
      | next => process_loop rest
      | break => pass
      end
  end.

(** [process_audio_stream]; [start] is the reading of [time.time()]
    taken before the loop. *)
Definition process_audio_stream (start : Q) (envs : list turn)
    : locals * list effect * result unit :=
  (emit (log INFO starting_loop);; process_loop envs)
    (mk_locals [] start false).

End loop.

(** *** Groups of frames

    A group, as the loop meets it: polls that find nothing buffered, a
    first frame, then further frames mixed with polls, and the poll that
    closes it. *)
Record group : Type := mk_group {
  idle : list turn;
  first : turn;
  body : list turn;
  closing : turn
}.


Definition frame_of (env : turn) : option (list Z) :=
  match get env with Ok chunk => Some chunk | Raise _ => None end.

(** The samples of the frames among [envs], in order. *)
Definition samples_of (envs : list turn) : list Z :=
  concat (omap frame_of envs).

Definition group_samples (g : group) : list Z :=
  samples_of (first g :: body g).

(** The time of the last frame among [envs], [last] if there is none. *)
Fixpoint last_frame_time (last : Q) (envs : list turn) : Q :=
  match envs with
  | [] => last
  | env :: rest =>
      last_frame_time
        (match frame_of env with Some _ => now env | None => last end) rest
  end.

(** Within [envs] every turn is a frame, or a poll that sees no more than
    the threshold of silence since the frame before it. *)
Fixpoint quiet (self : t) (last : Q) (envs : list turn) : Prop :=
  match envs with
  | [] => True
  | env :: rest =>
      match get env with
      | Ok _ => quiet self (now env) rest
      | Raise queue_Empty =>
          ((now env - last) * 1000 <= silence_threshold_ms self)%Q ∧
          quiet self last rest
      | Raise _ => False
      end
  end.


(** A group is handed on when it holds samples and is not shorter than the
    minimum length. *)
Definition long_enough (self : t) (g : group) : bool :=
  negb (length (group_samples g) =? 0)%nat
  && negb (Qltb (duration self (group_samples g)) (min_audio_length self)).

End HowdyTTSESP32Integration.

(* ===================================================================== *)
(** ** [class HowdyTTSTestServer] (tools/howdytts_test_server.py) *)
(* ===================================================================== *)

Module HowdyTTSTestServer.

Import struct.

(** Values produced by [json.loads] and consumed by [json.dumps]. *)
#[warnings="-register-all"]
Inductive json : Type :=
| JNull                                  (* None *)
| JBool (b : bool)
| JInt (n : Z)
| JFloat (x : Q)
| JStr (s : string)
| JList (l : list json)
| JDict (d : gmap string json).

Abbreviation dict := (gmap string json).

(** [data.get(key)] and [data.get(key, default)]: only a [dict] has the
    method. *)
Definition get (data : json) (key : string) : result (option json) :=
  match data with
  | JDict d => Ok (d !! key)
  | _ => Raise AttributeError
  end.

Definition get_default (data : json) (key : string) (default : json)
    : result json :=
  v ← get data key; mret (from_option id default v).

(** [v == s] for a string literal [s]; [v] is [None] when the key is
    absent. *)
Definition is_str (v : option json) (s : string) : bool :=
  match v with
  | Some (JStr s') => String.eqb s' s
  | _ => false
  end.

(** [len(s)] on a [str] counts code points.  A text is held as its
    UTF-8 bytes, among which every code point has exactly one byte that
    is not a continuation byte [10xxxxxx]. *)
Fixpoint code_points (s : string) : nat :=
  match s with
  | EmptyString => 0
  | String (Ascii.Ascii _ _ _ _ _ _ b6 b7) s' =>
      ((if b7 && negb b6 then 0 else 1) + code_points s')%nat
  end.

(** [len(v)] *)
Definition len (v : json) : result Z :=
  match v with
  | JStr s => Ok (Z.of_nat (code_points s))
  | JList l => Ok (Z.of_nat (length l))
  | JDict d => Ok (Z.of_nat (size d))
  | _ => Raise TypeError
  end.

Record client_info : Type := mk_client_info {
  remote : string;
  connected_at : string;
  session_id : string
}.

Inductive log_line : Type :=
| client_connected (info : client_info)
| client_disconnected (remote : string)
| tts_request (text voice : json)
| voice_session_started
| voice_session_ended
| received_audio (n : nat) (remote : string)
| websocket_error_message          (* msg.type == WSMsgType.ERROR *)
| websocket_error (e : exn).

Inductive ws_effect : Type :=
| send_str (message : dict)        (* ws.send_str(json.dumps(message)) *)
| send_bytes (data : bytes)        (* ws.send_bytes(data) *)
| asyncio_sleep (seconds : Q)
| logger (lvl : level) (line : log_line).

(** A frame yielded by [async for msg in ws]. *)
Inductive WSMessage : Type :=
| TEXT (data : string)
| BINARY (data : bytes)
| WS_ERROR
| WS_OTHER.

(** A frame together with the value [datetime.now().isoformat()] takes
    while it is handled. *)
Record event : Type := mk_event {
  msg : WSMessage;
  timestamp : string
}.

(** What [json.loads] makes of a text: the decoded value, or one of the
    exceptions it raises.  It raises [json.JSONDecodeError] on a text that
    is not JSON, [RecursionError] on nesting deeper than the interpreter
    allows, and [ValueError] on an integer literal with more digits than
    [int] converts. *)
Inductive loads_outcome : Type :=
| decoded (v : json)
| decode_error
| recursion_error
| value_error.

Definition loads_result (o : loads_outcome) : result json :=
  match o with
  | decoded v => Ok v
  | decode_error => Raise JSONDecodeError
  | recursion_error => Raise RecursionError
  | value_error => Raise ValueError
  end.

Record t : Type := mk {
  name : string;
  registered_devices : gmap string json;
  active_sessions : list json;
  websocket_clients : list nat      (* the connections, by handle *)
}.

Definition append_client (ws : nat) (self : t) : t :=
  mk (name self) (registered_devices self) (active_sessions self)
     (websocket_clients self ++ [ws]).

(** [list.remove]: the first occurrence only. *)
Fixpoint remove_first (ws : nat) (l : list nat) : list nat :=
  match l with
  | [] => []
  | x :: l' => if decide (x = ws) then l' else x :: remove_first ws l'
  end.

Definition remove_client (ws : nat) (self : t) : t :=
  mk (name self) (registered_devices self) (active_sessions self)
     (remove_first ws (websocket_clients self)).

Section server.

(** [format_value v] is Python's [str(v)] on a decoded value that is
    not a string; [json_loads] is [json.loads]. *)
Variable format_value : json -> string.
Variable json_loads : string -> loads_outcome.

(** [f"{v}"] *)
Definition fstring (v : option json) : string :=
  match v with
  | None => "None"
  | Some (JStr s) => s
  | Some v => format_value v
  end.

Definition error_message (text stamp : string) : dict :=
  {[ "type" := JStr "error";
     "error" := JStr text;
     "timestamp" := JStr stamp ]}.

Definition handle_websocket_message (data : json) (info : client_info)
    (stamp : string) : prog t ws_effect unit :=
  msg_type ← lift (get data "type");
  if is_str msg_type "ping" then
    emit (send_str {[ "type" := JStr "pong";
                      "timestamp" := JStr stamp ]})
  else if is_str msg_type "text_to_speech" then
    text ← lift (get_default data "text" (JStr ""));
    voice ← lift (get_default data "voice" (JStr "default"));
    emit (logger INFO (tts_request text voice));;
    emit (asyncio_sleep 0.5);;
    n ← lift (len text);
    emit (send_str {[ "type" := JStr "tts_response";
                      "text" := text;
                      "voice" := voice;
                      "audio_format" := JStr "pcm_s16le";
                      "sample_rate" := JInt 16000;
                      "duration_ms" := JInt (n * 50);
                      "status" := JStr "completed";
                      "timestamp" := JStr stamp ]});;
    emit (send_bytes (replicate 1024 Byte.x00))
  else if is_str msg_type "voice_start" then
    emit (logger INFO voice_session_started);;
    emit (send_str {[ "type" := JStr "voice_ready";
                      "session_id" := JStr (session_id info);
                      "timestamp" := JStr stamp ]})
  else if is_str msg_type "voice_end" then
    emit (logger INFO voice_session_ended);;
    mock_text ← lift (get_default data "mock_result"
      (JStr "Hello, this is a test response from the HowdyTTS test server."));
    emit (send_str {[ "type" := JStr "voice_result";
                      "text" := mock_text;
                      "confidence" := JFloat 0.95;
                      "session_id" := JStr (session_id info);
                      "timestamp" := JStr stamp ]})
  else if is_str msg_type "echo_test" then
    emit (send_str {[ "type" := JStr "echo_response";
                      "original_message" := data;
                      "timestamp" := JStr stamp ]})
  else
    emit (send_str (error_message
            ("Unknown message type: " ++ fstring msg_type) stamp)).

Definition handle_audio_data (audio_data : bytes) (info : client_info)
    (stamp : string) : prog t ws_effect unit :=
  emit (logger INFO (received_audio (length audio_data) (remote info)));;
  emit (asyncio_sleep 0.01);;
  emit (send_str {[ "type" := JStr "audio_received";
                    "bytes_received" := JInt (Z.of_nat (length audio_data));
                    "session_id" := JStr (session_id info);
                    "timestamp" := JStr stamp ]}).

Inductive flow : Type := next | break.

(** The body of [async for msg in ws]. *)
Definition on_message (ev : event) (info : client_info)
    : prog t ws_effect flow :=
  match msg ev with
  | TEXT text =>
      try_except
        (data ← lift (loads_result (json_loads text));
         handle_websocket_message data info (timestamp ev))
        (fun e =>
           match e with
           | JSONDecodeError =>
               Some (emit (send_str (error_message "Invalid JSON format"
                                       (timestamp ev))))
           | _ => None
           end);;
      mret next
  | BINARY data =>
      handle_audio_data data info (timestamp ev);; mret next
  | WS_ERROR =>
      emit (logger ERROR websocket_error_message);; mret break
  | WS_OTHER => mret next
  end.

Fixpoint message_loop (evs : list event) (info : client_info)
    : prog t ws_effect unit :=
  match evs with
  | [] => pass
  | ev :: rest =>
      f ← on_message ev info;
      match f with
      | next => message_loop rest info
      | break => pass
      end
  end.

(** [websocket_endpoint] for the connection [ws]: [now] is the reading
    of [time.time()] and [stamp] the ISO time at connection, [evs] the
    frames the client sends until it goes away. *)
Definition websocket_endpoint (ws : nat) (peer : string) (now : Q)
    (stamp : string) (evs : list event) : prog t ws_effect unit :=
  clients ← gets websocket_clients;
  server_name ← gets name;
  let info := mk_client_info peer stamp
    ("ws_session_" ++ pretty (int now) ++ "_" ++ pretty (length clients)) in
  modify (append_client ws);;
  emit (logger INFO (client_connected info));;
  emit (send_str {[ "type" := JStr "welcome";
                    "session_id" := JStr (session_id info);
                    "server" := JStr server_name;
                    "version" := JStr "1.0.0-test";
                    "capabilities" :=
                      JList [JStr "tts"; JStr "voice"; JStr "echo_test"];
                    "timestamp" := JStr stamp ]});;
  try_finally
    (try_except (message_loop evs info)
       (fun e =>
          if is_Exception e
          then Some (emit (logger ERROR (websocket_error e)))
          else None))
    (modify (remove_client ws);;
     emit (logger INFO (client_disconnected (remote info)))).

End server.

End HowdyTTSTestServer.

(* ===================================================================== *)
(** ** Reading a run of the receive loop *)
(* ===================================================================== *)

Module Received.

Import struct ESP32AudioServer.

(** The frame a [recvfrom] outcome contributes to the queue, if any: the
    samples of a datagram of at least 8 bytes (after the cut to 256) whose
    payload slice is a whole number of int16 values. *)
Definition frame_of (net : result (bytes * address)) : option (list Z) :=
  match net with
  | Ok (data, _) =>
      let data := take 256 data in
      if (8 <=? length data)%nat then
        match np.frombuffer (audio_data data) with
        | Ok samples => Some samples
        | Raise _ => None
        end
      else None
  | Raise _ => None
  end.

(** The outcomes that end in the [except Exception] clause: a failed
    [recvfrom] other than a timeout, or a payload of odd length. *)
Definition failed (net : result (bytes * address)) : bool :=
  match net with
  | Ok (data, _) =>
      let data := take 256 data in
      (8 <=? length data)%nat
      && negb (length (audio_data data) mod 2 =? 0)%nat
  | Raise socket_timeout => false
  | Raise _ => true
  end.

End Received.

(* ===================================================================== *)
(** ** Reading a turn of the segmentation loop *)
(* ===================================================================== *)

Module Segmentation.

Import HowdyTTSESP32Integration.

(** The poll [env] finds the queue empty, a buffer that is not empty, more
    than the threshold of silence, and a buffer that is not shorter than
    the minimum length: the buffer is handed to the transcriber. *)
Definition finalizes (self : t) (env : turn) (st : locals) : Prop :=
  get env = Raise queue_Empty ∧
  audio_buffer st ≠ [] ∧
  processing st = false ∧
  (silence_threshold_ms self < (now env - last_audio_time st) * 1000)%Q ∧
  (min_audio_length self <= duration self (audio_buffer st))%Q.

(** The locals after an utterance has been dealt with. *)
Definition cleared (st : locals) : locals :=
  mk_locals [] (last_audio_time st) false.

End Segmentation.

(* ===================================================================== *)
(** ** tools/howdytts_test_server.py: the HTTP device registry *)
(* ===================================================================== *)

(** The WebSocket handlers never read [registered_devices], so the record
    of [HowdyTTSTestServer] keeps it abstract.  The HTTP handlers depend on
    which keys Python takes for equal and on the insertion order of the
    [dict], which this module spells out.  Decoded numbers are exact
    ([json] has no NaN and no infinity). *)
Module HowdyTTSTestServerHttp.

Import Stdlib.Strings.Ascii.
Import HowdyTTSTestServer.

(** [bool(v)], as [not device_id] and [if capabilities] take it. *)
Definition truthy (v : json) : bool :=
  match v with
  | JNull => false
  | JBool b => b
  | JInt n => negb (n =? 0)
  | JFloat x => negb (Qeq_bool x 0)
  | JStr s => negb (String.eqb s "")
  | JList l => match l with [] => false | _ :: _ => true end
  | JDict d => negb (size d =? 0)%nat
  end.

(** Decoded values as [dict] keys.  Lists and objects are unhashable;
    numbers and booleans are one key when they are equal as numbers
    ([1 == 1.0 == True]). *)
Definition hashable (v : json) : bool :=
  match v with
  | JList _ | JDict _ => false
  | _ => true
  end.

Definition number (v : json) : option Q :=
  match v with
  | JBool b => Some (if b then 1%Q else 0%Q)
  | JInt n => Some (inject_Z n)
  | JFloat x => Some x
  | _ => None
  end.

Definition key_eq (a b : json) : bool :=
  match a, b with
  | JNull, JNull => true
  | JStr s, JStr s' => String.eqb s s'
  | _, _ =>
      match number a, number b with
      | Some x, Some y => Qeq_bool x y
      | _, _ => false
      end
  end.

(** A [dict] keyed by decoded values: the entries in insertion order. *)
Abbreviation py_dict := (list (json * json)).

(** [d.get(key)] *)
Fixpoint getitem (d : py_dict) (key : json) : option json :=
  match d with
  | [] => None
  | (k, v) :: d' => if key_eq k key then Some v else getitem d' key
  end.

(** [d[key] = value] for a hashable [key]: an equal key keeps its place
    and its first spelling, a new key goes last. *)
Fixpoint store (d : py_dict) (key value : json) : py_dict :=
  match d with
  | [] => [(key, value)]
  | (k, v) :: d' =>
      if key_eq k key then (k, value) :: d'
      else (k, v) :: store d' key value
  end.

Definition setitem (d : py_dict) (key value : json) : result py_dict :=
  if hashable key then Ok (store d key value) else Raise TypeError.

(** [list(d.values())] *)
Definition values (d : py_dict) : list json := snd <$> d.

(** [s.split(sep)] for a one-character separator, and [sep.join(l)]. *)
Fixpoint split (sep : ascii) (s : string) : list string :=
  match s with
  | EmptyString => [EmptyString]
  | String c s' =>
      if Ascii.eqb c sep then EmptyString :: split sep s'
      else match split sep s' with
           | [] => [String c EmptyString]
           | w :: ws => String c w :: ws
           end
  end.

(** [c in s] for a character [c] *)
Fixpoint contains (c : ascii) (s : string) : bool :=
  match s with
  | EmptyString => false
  | String c' s' => Ascii.eqb c' c || contains c s'
  end.

Fixpoint join (sep : ascii) (l : list string) : string :=
  match l with
  | [] => EmptyString
  | [w] => w
  | w :: ws => w ++ String sep (join sep ws)
  end.

Inductive log_line : Type :=
| device_registered (device_id device_name capabilities : json)
| registration_failed (e : exn).

Inductive http_effect : Type :=
| logger (lvl : level) (line : log_line).

(** [web.json_response(body, status=status)] *)
Record response : Type := json_response {
  body : dict;
  status : Z
}.

Record t : Type := mk {
  port : Z;
  registered_devices : py_dict;
  active_sessions : list json
}.

Definition set_registered_devices (devices : py_dict) (self : t) : t :=
  mk (port self) devices (active_sessions self).

(** What a POST to [/devices/register] brings: the outcome of
    [request.json()], the two readings of [datetime.now().isoformat()]
    and the reading of [time.time()]. *)
Record request : Type := mk_request {
  request_json : result json;
  registered_at : string;
  last_seen : string;
  now : Q
}.

(** [capabilities.split(',') if capabilities else []] *)
Definition split_capabilities (capabilities : json) : result json :=
  if truthy capabilities then
    match capabilities with
    | JStr s => Ok (JList (JStr <$> split ","%char s))
    | _ => Raise AttributeError
    end
  else Ok (JList []).

Definition device_record (device_id device_name device_type capabilities : json)
    (request : request) : json :=
  JDict {[ "device_id" := device_id;
           "device_name" := device_name;
           "device_type" := device_type;
           "capabilities" := capabilities;
           "registered_at" := JStr (registered_at request);
           "last_seen" := JStr (last_seen request);
           "status" := JStr "online" ]}.

Definition registered (device_id : json) (seconds : Z) (count : nat)
    (port : Z) : dict :=
  {[ "status" := JStr "registered";
     "device_id" := device_id;
     "session_id" :=
       JStr ("session_" ++ pretty seconds ++ "_" ++ pretty count);
     "server_capabilities" :=
       JList [JStr "tts"; JStr "voice"; JStr "websocket"];
     "websocket_url" :=
       JStr ("ws://localhost:" ++ pretty port ++ "/howdytts");
     "keepalive_interval" := JInt 30 ]}.

Section endpoints.

(** [str e] is Python's [str(e)], the text of the exception. *)
Variable str : exn -> string.

Definition registration_failure (e : exn) : dict :=
  {[ "error" := JStr "Registration failed";
     "details" := JStr (str e) ]}.

Definition register_device_endpoint (request : request)
    : prog t http_effect response :=
  try_except
    (data ← lift (request_json request);
     device_id ← lift (get_default data "device_id" JNull);
     device_name ← lift (get_default data "device_name"
                           (JStr "Unknown Device"));
     capabilities ← lift (get_default data "capabilities" (JStr ""));
     device_type ← lift (get_default data "device_type" (JStr "unknown"));
     if negb (truthy device_id) then
       mret (json_response {[ "error" := JStr "device_id is required" ]} 400)
     else
       capability_list ← lift (split_capabilities capabilities);
       devices ← gets registered_devices;
       devices ← lift (setitem devices device_id
                         (device_record device_id device_name device_type
                            capability_list request));
       modify (set_registered_devices devices);;
       count ← gets (fun self => length (registered_devices self));
       port ← gets port;
       emit (logger INFO
               (device_registered device_id device_name capabilities));;
       mret (json_response
               (registered device_id (int (now request)) count port) 200))
    (fun e =>
       if is_Exception e then
         Some (emit (logger ERROR (registration_failed e));;
               mret (json_response (registration_failure e) 500))
       else None).

Definition list_devices_endpoint : prog t http_effect response :=
  devices ← gets registered_devices;
  mret (json_response
          {[ "devices" := JList (values devices);
             "total_count" := JInt (Z.of_nat (length devices)) ]} 200).

End endpoints.

End HowdyTTSTestServerHttp.

(* ===================================================================== *)
(** ** The reply session of the stream transport *)
(* ===================================================================== *)

(** The sources hold no receiver of [tts_audio_start], [tts_audio_chunk]
    and [tts_audio_end]: tools/validate_bidirectional_audio.py (lines
    88-160) is the client that sends them to the device, and the
    dispatcher of the test server has no branch for them.  The state
    machine that accepts the chunks is therefore taken from the
    specification, section 4.4. *)
Module ReplySession.

(** Modelled from the spec: the [ReplySession] entity, which is not among
    the sources.  A session has a [session_id], the number of chunks it
    expects and the number of chunks sent so far. *)
Record session : Type := mk_session {
  session_id : string;
  total_chunks_expected : nat;
  chunks_sent : nat
}.

(** Modelled from the spec: the states of the machine
    [Idle -> Streaming -> Idle], which is not among the sources. *)
Inductive state : Type :=
| Idle
| Streaming (s : session).

(** Modelled from the spec: the control messages, with the fields the
    state machine reads; their receiver is not among the sources. *)
Inductive message : Type :=
| tts_audio_start (id : string) (total_chunks_expected : nat)
| tts_audio_chunk (id : string) (chunk_sequence : nat) (is_final : bool)
| tts_audio_end (id : string).

Inductive violation : Type :=
| out_of_order_chunk
| start_while_streaming
| no_such_session.

(** The reply to a message: an acknowledgement, or an error-typed
    response. *)
Inductive response : Type :=
| ack
| error (v : violation).

(** Modelled from the spec: the transition function of the session state
    machine, whose implementation is not among the sources.

    - [Idle --start--> Streaming];
    - [Streaming --chunk(n)--> Streaming]: [chunk_sequence] must equal the
      count of chunks already sent for that session, an out-of-order
      number is a protocol violation; the final chunk's [is_final] flag
      closes the session;
    - [Streaming --end--> Idle];
    - a start message received while already [Streaming] is rejected, the
      current session untouched;
    - a protocol violation is rejected with an error-typed response.

    The specification names no transition for a chunk or an end message
    that meets no streaming session of its id; it is rejected here, the
    state unchanged. *)
Definition step (st : state) (m : message) : state * response :=
  match st, m with
  | Idle, tts_audio_start id total => (Streaming (mk_session id total 0), ack)
  | Idle, _ => (Idle, error no_such_session)
  | Streaming s, tts_audio_start _ _ =>
      (Streaming s, error start_while_streaming)
  | Streaming s, tts_audio_chunk id n is_final =>
      if negb (String.eqb id (session_id s)) then
        (Streaming s, error no_such_session)
      else if negb (n =? chunks_sent s)%nat then
        (Streaming s, error out_of_order_chunk)
      else if is_final then (Idle, ack)
      else
        (Streaming (mk_session (session_id s) (total_chunks_expected s)
                      (S (chunks_sent s))),
         ack)
  | Streaming s, tts_audio_end id =>
      if negb (String.eqb id (session_id s)) then
        (Streaming s, error no_such_session)
      else (Idle, ack)
  end.

(** The machine over the messages of a connection, with its replies. *)
Fixpoint run (st : state) (ms : list message) : state * list response :=
  match ms with
  | [] => (st, [])
  | m :: rest =>
      let '(st1, r) := step st m in
      let '(st2, rs) := run st1 rest in
      (st2, r :: rs)
  end.


End ReplySession.

(* ===================================================================== *)
(** ** Concrete inputs used by the examples below *)
(* ===================================================================== *)

Module Examples.

Import ESP32AudioServer.

Definition peer : address := ("192.168.1.50"%string, 50000).
Definition other_peer : address := ("192.168.1.51"%string, 50001).

Definition unbound_server : ESP32AudioServer.t := mk None [] true.
Definition bound_server : ESP32AudioServer.t := mk (Some peer) [] true.

(** timestamp 1000, sequence 0, payload_size 2, one sample 0x1234 *)
Definition one_sample_packet : list byte :=
  [Byte.xe8; Byte.x03; Byte.x00; Byte.x00;
   Byte.x00; Byte.x00; Byte.x02; Byte.x00;
   Byte.x34; Byte.x12].

(** timestamp 1000, sequence 0, payload_size 3, three payload bytes *)
Definition odd_payload_packet : list byte :=
  [Byte.xe8; Byte.x03; Byte.x00; Byte.x00;
   Byte.x00; Byte.x00; Byte.x03; Byte.x00;
   Byte.x34; Byte.x12; Byte.x56].

Definition short_datagram : list byte := [Byte.x01; Byte.x02; Byte.x03].

(** [(x * 32767).astype(np.int16)] on one element, for a product that is
    exact and within the int16 range, as it is wherever [scale] is used
    below. *)
Definition scale (x : Q) : Z := int (x * 32767).

(** A clock stuck one second after the epoch. *)
Definition early_clock : nat -> Q := fun _ => 1%Q.

(** A reading of the clock in November 2025. *)
Definition present_clock : nat -> Q := fun _ => 1762000000%Q.

Definition one_sample : np.ndarray Q := np.int16_array [7].
Definition waveform_700 : np.ndarray Q := np.int16_array (replicate 700 5).

Import HowdyTTSTestServer.

(** Stand-ins for [str] and [json.loads]; the latter agrees with
    [json.loads] on the texts of the frames below. *)
Definition format_value (v : json) : string := "<value>".
Definition json_loads (text : string) : loads_outcome :=
  if String.eqb text "{}" then decoded (JDict ∅) else decode_error.

Definition ws_client : client_info :=
  mk_client_info "192.168.1.50" "2025-11-03T12:00:00" "ws_session_1762000000_0".

Definition test_server : HowdyTTSTestServer.t :=
  HowdyTTSTestServer.mk "Test-HowdyTTS" ∅ [] [0%nat].

(** The sixth chunk of a session, as the validation script sends it. *)
Definition chunk_message : dict :=
  {[ "type" := JStr "tts_audio_chunk";
     "chunk_info" := JDict
       {[ "session_id" := JStr "test_session_1762000000";
          "chunk_sequence" := JInt 5;
          "chunk_size" := JInt 640;
          "is_final" := JBool false;
          "audio_data" := JStr "AAAA";
          "checksum" := JStr "0000002a" ]} ]}.

Definition broken_text : event :=
  mk_event (TEXT "{not json") "2025-11-03T12:00:01".
Definition empty_object_text : event :=
  mk_event (TEXT "{}") "2025-11-03T12:00:02".

(** A Whisper that hears nothing, a synthesizer that says nothing. *)
Definition deaf_transcribe (audio : list Q) : result string := Ok "".
Definition mute_text_to_speech (text : string) : list Q := [].

(** A frame of [n] samples of value [v] taken from the queue at time [at_],
    and a poll that finds the queue empty at time [at_]. *)
Definition burst (n : nat) (v : Z) (at_ : Q) : HowdyTTSESP32Integration.turn :=
  HowdyTTSESP32Integration.mk_turn (Ok (replicate n v)) at_
    bound_server early_clock.
Definition poll (at_ : Q) : HowdyTTSESP32Integration.turn :=
  HowdyTTSESP32Integration.mk_turn (Raise queue_Empty) at_
    bound_server early_clock.

(** 9000 samples, a poll 500 ms later, 9000 more samples 510 ms after the
    first ones, and a poll 690 ms after those. *)
Definition two_bursts : list HowdyTTSESP32Integration.turn :=
  [burst (9 * 1000) 1 10; poll 10.5; burst (9 * 1000) 2 10.51; poll 11.2].


(** timestamp 1000, sequence 0, a declared payload of 8 bytes, only four
    of which arrived *)
Definition truncated_packet : list byte :=
  [Byte.xe8; Byte.x03; Byte.x00; Byte.x00;
   Byte.x00; Byte.x00; Byte.x08; Byte.x00;
   Byte.x34; Byte.x12; Byte.xff; Byte.xff].

(** What a receiver meets in a short session. *)
Definition session : list (result (list byte * address)) :=
  [Raise socket_timeout;
   Ok (one_sample_packet, peer);
   Ok (short_datagram, other_peer);
   Raise OSError;
   Ok (odd_payload_packet, other_peer);
   Ok (truncated_packet, peer)].

(** A clock that is fine for the first chunk only: the second reading,
    5000000 s, is past [2^32] ms. *)
Definition failing_clock : nat -> Q :=
  fun k => match k with O => 1%Q | _ => 5000000%Q end.

(** Transcribers: one that fails, one that is interrupted, one that hears
    a word; and a synthesizer that answers with 400 samples of 0.5. *)
Definition failing_transcribe (audio : list Q) : result string :=
  Raise ValueError.
Definition interrupted_transcribe (audio : list Q) : result string :=
  Raise KeyboardInterrupt.
Definition hearing_transcribe (audio : list Q) : result string := Ok "hello".
Definition tone_text_to_speech (text : string) : list Q :=
  replicate 400 (1 # 2)%Q.

(** 9000 samples buffered, the last of them taken at time 10. *)
Definition full_buffer : HowdyTTSESP32Integration.locals :=
  HowdyTTSESP32Integration.mk_locals (replicate (9 * 1000) 1) 10 false.

(** A [queue.get] interrupted from the keyboard, and one that fails. *)
Definition interrupted_get (at_ : Q) : HowdyTTSESP32Integration.turn :=
  HowdyTTSESP32Integration.mk_turn (Raise KeyboardInterrupt) at_
    bound_server early_clock.
Definition failing_get (at_ : Q) : HowdyTTSESP32Integration.turn :=
  HowdyTTSESP32Integration.mk_turn (Raise OSError) at_
    bound_server early_clock.

(** Frames 20 ms apart, with a poll in between. *)
Definition steady_frames : list HowdyTTSESP32Integration.turn :=
  [burst 160 1 10; burst 160 2 10.02; poll 10.03; burst 160 3 10.04;
   burst 160 4 10.06].

(** 2000 opening brackets: not JSON, and nested deeper than the
    interpreter's recursion limit of 1000, so that [json.loads] gives up
    with [RecursionError] before it finds the text unterminated. *)
Definition deep_nesting : string :=
  String.concat "" (replicate 2000 "[").

(** [json.loads] on the empty object, a list, the deep nesting, and on
    the text [{not json] of [broken_text]. *)
Definition small_json_loads (text : string) : loads_outcome :=
  if String.eqb text "{}" then decoded (JDict ∅)
  else if String.eqb text "[1]" then decoded (JList [JInt 1])
  else if String.eqb text deep_nesting then recursion_error
  else decode_error.

Definition deep_text : event :=
  mk_event (TEXT deep_nesting) "2025-11-03T12:00:07".

Definition list_text : event := mk_event (TEXT "[1]") "2025-11-03T12:00:04".

Definition numeric_speech_request : dict :=
  {[ "type" := JStr "text_to_speech"; "text" := JInt 5 ]}.

Definition bare_request : dict := {[ "text" := JStr "hello" ]}.

(** A registry with one device, and what devices post to it. *)
Definition exn_text (e : exn) : string :=
  match e with
  | AttributeError => "object has no attribute"
  | TypeError => "unhashable type"
  | _ => "error"
  end.

Definition first_post : HowdyTTSTestServerHttp.request :=
  HowdyTTSTestServerHttp.mk_request
    (Ok (JDict {[ "device_id" := JStr "howdy-01";
                  "device_name" := JStr "Kitchen";
                  "device_type" := JStr "esp32p4";
                  "capabilities" := JStr "audio" ]}))
    "2025-11-03T11:59:00" "2025-11-03T11:59:00" 1762171140.5.

Definition http_server : HowdyTTSTestServerHttp.t :=
  HowdyTTSTestServerHttp.mk 8080
    [(JStr "howdy-01",
      HowdyTTSTestServerHttp.device_record (JStr "howdy-01") (JStr "Kitchen")
        (JStr "esp32p4") (JList [JStr "audio"]) first_post)]
    [].

Definition second_object : dict :=
  {[ "device_id" := JStr "howdy-02";
     "capabilities" := JStr "audio,display,touch" ]}.
Definition second_post : HowdyTTSTestServerHttp.request :=
  HowdyTTSTestServerHttp.mk_request (Ok (JDict second_object))
    "2025-11-03T12:01:00" "2025-11-03T12:01:01" 1762171260.25.

Definition second_record : json :=
  HowdyTTSTestServerHttp.device_record (JStr "howdy-02")
    (JStr "Unknown Device") (JStr "unknown")
    (JList [JStr "audio"; JStr "display"; JStr "touch"]) second_post.
Definition http_server_after_second : HowdyTTSTestServerHttp.t :=
  HowdyTTSTestServerHttp.set_registered_devices
    (HowdyTTSTestServerHttp.registered_devices http_server
       ++ [(JStr "howdy-02", second_record)])
    http_server.

Definition zero_id_object : dict :=
  {[ "device_id" := JInt 0; "device_name" := JStr "Hall" ]}.
Definition zero_id_post : HowdyTTSTestServerHttp.request :=
  HowdyTTSTestServerHttp.mk_request (Ok (JDict zero_id_object))
    "2025-11-03T12:02:00" "2025-11-03T12:02:00" 1762171320.

Definition broken_post : HowdyTTSTestServerHttp.request :=
  HowdyTTSTestServerHttp.mk_request (Raise JSONDecodeError)
    "2025-11-03T12:03:00" "2025-11-03T12:03:00" 1762171380.

(** A registry keyed by the integer 1, and a device posting the id 1.0. *)
Definition numbered_server : HowdyTTSTestServerHttp.t :=
  HowdyTTSTestServerHttp.mk 8080
    [(JInt 1, JDict {[ "device_id" := JInt 1 ]});
     (JStr "howdy-01", JDict {[ "device_id" := JStr "howdy-01" ]})]
    [].
Definition float_id_object : dict :=
  {[ "device_id" := JFloat 1; "device_name" := JStr "Porch" ]}.
Definition float_id_post : HowdyTTSTestServerHttp.request :=
  HowdyTTSTestServerHttp.mk_request (Ok (JDict float_id_object))
    "2025-11-03T12:04:00" "2025-11-03T12:04:00" 1762171440.

Definition flags_object : dict :=
  {[ "device_id" := JStr "howdy-03"; "capabilities" := JInt 3 ]}.
Definition flags_post : HowdyTTSTestServerHttp.request :=
  HowdyTTSTestServerHttp.mk_request (Ok (JDict flags_object))
    "2025-11-03T12:05:00" "2025-11-03T12:05:00" 1762171500.

Definition list_id_object : dict :=
  {[ "device_id" := JList [JStr "howdy-04"] ]}.
Definition list_id_post : HowdyTTSTestServerHttp.request :=
  HowdyTTSTestServerHttp.mk_request (Ok (JDict list_id_object))
    "2025-11-03T12:06:00" "2025-11-03T12:06:00" 1762171560.


End Examples.

(* ===================================================================== *)
(** * Properties *)
(* ===================================================================== *)

(** ** Running statement blocks *)

Section prog_laws.

Context {S E : Type}.

Lemma run_bind {A B} (m : prog S E A) (k : A -> prog S E B) s :
  (m ≫= k) s =
    match m s with
    | (s1, es1, Ok a) => let '(s2, es2, r) := k a s1 in (s2, es1 ++ es2, r)
    | (s1, es1, Raise e) => (s1, es1, Raise e)
    end.
Proof. done. Qed.

Lemma run_ret_bind {A B} (a : A) (k : A -> prog S E B) s :
  (mret a ≫= k) s = k a s.
Proof. rewrite run_bind. cbn. by destruct (k a s) as [[??]?]. Qed.

Lemma run_gets_bind {A B} (f : S -> A) (k : A -> prog S E B) s :
  (gets f ≫= k) s = k (f s) s.
Proof. rewrite run_bind. cbn. by destruct (k (f s) s) as [[??]?]. Qed.

Lemma run_modify_bind {B} (f : S -> S) (k : unit -> prog S E B) s :
  (modify f ≫= k) s = k tt (f s).
Proof. rewrite run_bind. cbn. by destruct (k tt (f s)) as [[??]?]. Qed.

Lemma run_emit_bind {B} (e : E) (k : unit -> prog S E B) s :
  (emit e ≫= k) s = let '(s2, es2, r) := k tt s in (s2, e :: es2, r).
Proof. done. Qed.

Lemma run_lift_bind {A B} (r : result A) (k : A -> prog S E B) s :
  (lift r ≫= k) s =
    match r with Ok a => k a s | Raise e => (s, [], Raise e) end.
Proof.
  rewrite run_bind. destruct r as [a|e]; cbn; [|done].
  by destruct (k a s) as [[??]?].
Qed.

Lemma run_ret {A} (a : A) (s : S) :
  (mret a : prog S E A) s = (s, [], Ok a).
Proof. done. Qed.

Lemma run_pass (s : S) : pass s = (s, @nil E, Ok tt).
Proof. done. Qed.

Lemma run_modify (f : S -> S) s : modify f s = (f s, @nil E, Ok tt).
Proof. done. Qed.

Lemma run_emit (e : E) (s : S) : emit e s = (s, [e], Ok tt).
Proof. done. Qed.

End prog_laws.

Create Rewrite HintDb prog.
#[local] Hint Rewrite @run_ret_bind @run_gets_bind @run_modify_bind
  @run_emit_bind @run_lift_bind @run_pass @run_modify @run_emit @run_ret
  : prog.

(** ** The header codec *)

Section header_codec.

Import struct.

Lemma pack_uint_in_range n v :
  0 <= v < 2 ^ (8 * Z.of_nat n) -> pack_uint n v = Ok (le_split n v).
Proof.
  intros [Hlo Hhi]. unfold pack_uint.
  apply Z.leb_le in Hlo. apply Z.ltb_lt in Hhi.
  by rewrite Hlo, Hhi.
Qed.

Lemma pack_uint_out_of_range n v :
  ¬ (0 <= v < 2 ^ (8 * Z.of_nat n)) -> pack_uint n v = Raise struct_error.
Proof.
  intros Hout. unfold pack_uint.
  destruct (0 <=? v) eqn:Hlo; [|done].
  destruct (v <? 2 ^ (8 * Z.of_nat n)) eqn:Hhi; [|done].
  apply Z.leb_le in Hlo. apply Z.ltb_lt in Hhi. lia.
Qed.

(** Packing what was read from [n] bytes gives the bytes back. *)
Lemma pack_uint_le_combine n bs :
  length bs = n -> pack_uint n (le_combine bs) = Ok bs.
Proof.
  intros <-. rewrite pack_uint_in_range.
  - by rewrite split_le_combine.
  - apply le_combine_bound.
Qed.

Lemma pack_IHH_in_range a b c :
  0 <= a < 2 ^ 32 -> 0 <= b < 2 ^ 16 -> 0 <= c < 2 ^ 16 ->
  pack_IHH a b c = Ok (le_split 4 a ++ le_split 2 b ++ le_split 2 c).
Proof.
  intros Ha Hb Hc. unfold pack_IHH.
  by rewrite !pack_uint_in_range.
Qed.

Lemma pack_IHH_inv a b c h :
  pack_IHH a b c = Ok h ->
  (0 <= a < 2 ^ 32 ∧ 0 <= b < 2 ^ 16 ∧ 0 <= c < 2 ^ 16) ∧
  h = le_split 4 a ++ le_split 2 b ++ le_split 2 c.
Proof.
  unfold pack_IHH.
  destruct (decide (0 <= a < 2 ^ 32)) as [Ha|Ha];
    [rewrite (pack_uint_in_range 4 a Ha)
    |by rewrite (pack_uint_out_of_range 4 a Ha)].
  destruct (decide (0 <= b < 2 ^ 16)) as [Hb|Hb];
    [rewrite (pack_uint_in_range 2 b Hb)
    |by rewrite (pack_uint_out_of_range 2 b Hb)].
  destruct (decide (0 <= c < 2 ^ 16)) as [Hc|Hc];
    [rewrite (pack_uint_in_range 2 c Hc)
    |by rewrite (pack_uint_out_of_range 2 c Hc)].
  intros [= <-]. done.
Qed.

Lemma length_pack_IHH a b c h : pack_IHH a b c = Ok h -> length h = 8%nat.
Proof. intros [_ ->]%pack_IHH_inv. done. Qed.

(** [unpack] after [pack] *)
Lemma unpack_pack_IHH a b c h :
  pack_IHH a b c = Ok h -> unpack_IHH h = Ok (a, b, c).
Proof.
  intros [(Ha & Hb & Hc) ->]%pack_IHH_inv.
  unfold unpack_IHH, slice.
  change (length _ =? 8)%nat with true. cbv iota.
  change (take (4 - 0) (drop 0 (le_split 4 a ++ le_split 2 b ++ le_split 2 c)))
    with (le_split 4 a).
  change (take (6 - 4) (drop 4 (le_split 4 a ++ le_split 2 b ++ le_split 2 c)))
    with (le_split 2 b).
  change (take (8 - 6) (drop 6 (le_split 4 a ++ le_split 2 b ++ le_split 2 c)))
    with (le_split 2 c).
  rewrite !le_combine_split.
  change (Z.of_nat 4 * 8) with 32. change (Z.of_nat 2 * 8) with 16.
  by rewrite !Z.mod_small.
Qed.

(** [pack] after [unpack] *)
Lemma pack_unpack_IHH buf a b c :
  unpack_IHH buf = Ok (a, b, c) -> pack_IHH a b c = Ok buf.
Proof.
  unfold unpack_IHH.
  destruct (length buf =? 8)%nat eqn:Hlen; [|done].
  apply Nat.eqb_eq in Hlen. intros [= <- <- <-].
  do 8 (destruct buf as [|? buf]; [done|]).
  destruct buf; [|done].
  unfold pack_IHH, slice.
  by rewrite !pack_uint_le_combine.
Qed.

End header_codec.

(** ** int16 arrays and their bytes *)

Section int16_arrays.

Import struct.

Lemma le_split_int16_of_bytes lo hi :
  le_split 2 (np.int16_of_bytes lo hi) = [lo; hi].
Proof.
  unfold np.int16_of_bytes.
  destruct (le_combine [lo; hi] <? 32768).
  - apply (split_le_combine [lo; hi]).
  - rewrite le_split_mod.
    replace (le_combine [lo; hi] - 65536)
      with (le_combine [lo; hi] + -1 * 2 ^ (Z.of_nat 2 * 8)) by lia.
    rewrite Z.mod_add by done.
    rewrite <- le_split_mod. apply (split_le_combine [lo; hi]).
Qed.

Lemma int16_of_bytes_range lo hi :
  -32768 <= np.int16_of_bytes lo hi < 32768.
Proof.
  unfold np.int16_of_bytes.
  pose proof (le_combine_bound [lo; hi]) as Hb.
  change (2 ^ (8 * Z.of_nat (length [lo; hi]))) with 65536 in Hb.
  destruct (le_combine [lo; hi] <? 32768) eqn:Hlt.
  - apply Z.ltb_lt in Hlt. lia.
  - apply Z.ltb_ge in Hlt. lia.
Qed.

Lemma length_tobytes a : length (np.tobytes a) = (2 * length a)%nat.
Proof.
  unfold np.tobytes. induction a as [|x a IH]; [done|].
  cbn [flat_map]. rewrite length_app, length_le_split, IH. cbn. lia.
Qed.

Lemma tobytes_int16_pairs n : ∀ buf,
  length buf = (2 * n)%nat -> np.tobytes (np.int16_pairs buf) = buf.
Proof.
  induction n as [|n IH]; intros buf Hlen.
  - by destruct buf.
  - destruct buf as [|lo [|hi rest]]; [done| cbn in Hlen; lia |].
    cbn [np.int16_pairs np.tobytes flat_map].
    rewrite le_split_int16_of_bytes.
    change (flat_map (le_split 2) (np.int16_pairs rest))
      with (np.tobytes (np.int16_pairs rest)).
    rewrite IH; [done|]. cbn in Hlen. lia.
Qed.

Lemma length_int16_pairs n : ∀ buf,
  length buf = (2 * n)%nat -> length (np.int16_pairs buf) = n.
Proof.
  induction n as [|n IH]; intros buf Hlen.
  - by destruct buf.
  - destruct buf as [|lo [|hi rest]]; [done| cbn in Hlen; lia |].
    cbn [np.int16_pairs length]. rewrite IH; [done|]. cbn in Hlen. lia.
Qed.

Lemma frombuffer_inv buf a :
  np.frombuffer buf = Ok a ->
  (length buf mod 2 = 0)%nat ∧ a = np.int16_pairs buf.
Proof.
  unfold np.frombuffer.
  destruct (length buf mod 2 =? 0)%nat eqn:Hev; [|done].
  apply Nat.eqb_eq in Hev. by intros [= <-].
Qed.

Lemma frombuffer_odd buf :
  (length buf mod 2 = 1)%nat -> np.frombuffer buf = Raise ValueError.
Proof.
  intros Hodd. unfold np.frombuffer. by rewrite Hodd.
Qed.

(** [frombuffer(buf).tobytes() == buf], with [len(buf) // 2] samples. *)
Lemma tobytes_frombuffer buf a :
  np.frombuffer buf = Ok a ->
  np.tobytes a = buf ∧ (2 * length a)%nat = length buf.
Proof.
  intros [Hev ->]%frombuffer_inv.
  assert (length buf = 2 * (length buf / 2))%nat as Hlen.
  { pose proof (Nat.div_mod_eq (length buf) 2). lia. }
  split.
  - by apply (tobytes_int16_pairs (length buf / 2)).
  - rewrite (length_int16_pairs (length buf / 2)); lia.
Qed.

End int16_arrays.

(** ** The datagram format: parse, then build *)

Section packet_codec.

Import struct ESP32AudioServer.

Lemma parse_packet_inv data ts sq size payload :
  (8 <= length data)%nat ->
  parse_packet data = Ok (ts, sq, size, payload) ->
  unpack_IHH (take 8 data) = Ok (ts, sq, size) ∧
  size = payload_size data ∧
  payload = take (Z.to_nat size) (drop 8 data).
Proof.
  intros Hlen. unfold parse_packet, slice.
  rewrite Nat.sub_0_r, drop_0.
  destruct (unpack_IHH (take 8 data)) as [[[a b] c]|e] eqn:Hun; [|done].
  cbn. intros [= <- <- <- <-].
  split_and!; [done| |f_equal; lia].
  revert Hun. unfold unpack_IHH.
  destruct (length (take 8 data) =? 8)%nat; [|done].
  intros [= _ _ <-]. unfold payload_size, slice.
  do 8 (destruct data as [|? data]; [cbn in Hlen; lia|]). done.
Qed.

Lemma parse_packet_total data :
  (8 <= length data)%nat ->
  ∃ ts sq payload,
    parse_packet data = Ok (ts, sq, payload_size data, payload).
Proof.
  intros Hlen. unfold parse_packet, slice, unpack_IHH.
  rewrite Nat.sub_0_r, drop_0, length_take, Nat.min_l by done.
  cbn -[le_combine take drop]. do 3 eexists. do 3 f_equal.
  unfold payload_size, slice.
  do 8 (destruct data as [|? data]; [cbn in Hlen; lia|]). done.
Qed.

End packet_codec.

Section packet_roundtrip.

Import struct ESP32AudioServer.

(** C3.  A valid packet [p] (at least 8 bytes, with a [payload_size]
    field equal to [len(p) - 8]) decodes, with the ['<IHH'] header format
    of [receive_audio], into fields and a payload that the same format
    encodes back into [p], byte for byte.  When the payload is a whole
    number of int16 samples, the packet [send_audio] builds from the
    decoded samples is [p] as well. *)
Theorem packet_roundtrip (p : bytes) :
  (8 <= length p)%nat ->
  payload_size p = Z.of_nat (length p) - 8 ->
  ∃ ts sq payload,
    parse_packet p = Ok (ts, sq, payload_size p, payload) ∧
    frame ts sq (payload_size p) payload = Ok p ∧
    ∀ samples, np.frombuffer payload = Ok samples ->
               build_packet ts sq samples = Ok p.
Proof.
  intros Hlen Hsize.
  destruct (parse_packet_total p Hlen) as (ts & sq & payload & Hparse).
  exists ts, sq, payload. split; [done|].
  destruct (parse_packet_inv _ _ _ _ _ Hlen Hparse) as (Hun & _ & Hpay).
  assert (payload = drop 8 p) as ->.
  { rewrite Hpay. apply take_ge. rewrite length_drop. lia. }
  assert (frame ts sq (payload_size p) (drop 8 p) = Ok p) as Hframe.
  { unfold frame. rewrite (pack_unpack_IHH _ _ _ _ Hun).
    cbn. by rewrite take_drop. }
  split; [done|].
  intros samples [Hbytes Hcount]%tobytes_frombuffer.
  unfold build_packet. rewrite Hbytes.
  replace (Z.of_nat (length samples) * 2) with (payload_size p); [done|].
  rewrite length_drop in Hcount. lia.
Qed.

Lemma packet_roundtrip_witness :
  ∃ ts sq payload,
    parse_packet Examples.one_sample_packet
      = Ok (ts, sq, payload_size Examples.one_sample_packet, payload) ∧
    frame ts sq (payload_size Examples.one_sample_packet) payload
      = Ok Examples.one_sample_packet ∧
    ∀ samples, np.frombuffer payload = Ok samples ->
               build_packet ts sq samples = Ok Examples.one_sample_packet.
Proof.
  apply (packet_roundtrip Examples.one_sample_packet);
    [cbn; lia | reflexivity].
Defined.

End packet_roundtrip.

(** ** The receive loop *)

Section receive_loop.

Import struct ESP32AudioServer.

Lemma track_endpoint_spec addr st :
  track_endpoint addr st =
    if decide (client_address st = Some addr) then (st, [], Ok tt)
    else (set_client_address addr st,
          [log INFO (connected_from addr)], Ok tt).
Proof.
  unfold track_endpoint. autorewrite with prog.
  repeat case_decide; done.
Qed.

Lemma receive_iteration_short data addr st :
  (length (take 256 data) < 8)%nat ->
  receive_iteration (Ok (data, addr)) st = track_endpoint addr st.
Proof.
  intros Hshort. apply Nat.leb_gt in Hshort.
  unfold receive_iteration, try_except, recvfrom.
  autorewrite with prog. cbn [mbind result_bind mret result_ret].
  rewrite run_bind, Hshort.
  destruct (track_endpoint addr st) as [[st1 es1] [[]|e]] eqn:Htrack.
  - autorewrite with prog. by rewrite app_nil_r.
  - rewrite track_endpoint_spec in Htrack. by case_decide.
Qed.

Lemma parse_packet_audio_data data :
  (8 <= length data)%nat ->
  ∃ ts sq, parse_packet data = Ok (ts, sq, payload_size data, audio_data data).
Proof.
  intros Hlen.
  destruct (parse_packet_total data Hlen) as (ts & sq & payload & Hparse).
  exists ts, sq. rewrite Hparse.
  destruct (parse_packet_inv _ _ _ _ _ Hlen Hparse) as (_ & _ & ->).
  unfold audio_data, slice. do 3 f_equal. lia.
Qed.

Lemma frombuffer_raises buf e :
  np.frombuffer buf = Raise e -> e = ValueError.
Proof.
  unfold np.frombuffer. destruct (length buf mod 2 =? 0)%nat; [done|].
  by intros [= <-].
Qed.

Lemma receive_iteration_long data addr st :
  (8 <= length (take 256 data))%nat ->
  receive_iteration (Ok (data, addr)) st =
    let '(st1, es1, _) := track_endpoint addr st in
    match np.frombuffer (audio_data (take 256 data)) with
    | Ok audio_samples => (audio_queue_put audio_samples st1, es1, Ok tt)
    | Raise e => (st1, es1 ++ [log ERROR (error_receiving e)], Ok tt)
    end.
Proof.
  intros Hlong.
  destruct (parse_packet_audio_data _ Hlong) as (ts & sq & Hparse).
  apply Nat.leb_le in Hlong.
  unfold receive_iteration, try_except, recvfrom.
  autorewrite with prog. cbn [mbind result_bind mret result_ret].
  rewrite run_bind, Hlong.
  destruct (track_endpoint addr st) as [[st1 es1] [[]|e]] eqn:Htrack.
  - autorewrite with prog. rewrite Hparse. autorewrite with prog.
    destruct (np.frombuffer _) as [a|e] eqn:Hbuf.
    + autorewrite with prog. by rewrite app_nil_r.
    + apply frombuffer_raises in Hbuf as ->.
      autorewrite with prog. by rewrite app_nil_r.
  - rewrite track_endpoint_spec in Htrack. by case_decide.
Qed.

End receive_loop.

Section receive_claims.

Import struct ESP32AudioServer.

Lemma track_endpoint_props addr st :
  ∃ st1 es1,
    track_endpoint addr st = (st1, es1, Ok tt) ∧
    client_address st1 = Some addr ∧
    audio_queue st1 = audio_queue st ∧
    running st1 = running st ∧
    error_count es1 = 0%nat ∧
    connect_notifications es1 =
      if decide (client_address st = Some addr) then [] else [addr].
Proof.
  rewrite track_endpoint_spec. case_decide; eauto 10.
Qed.

(** An iteration whose [recvfrom] raised leaves the server as it was. *)
Lemma receive_iteration_no_datagram e st :
  ∃ es r, receive_iteration (Raise e) st = (st, es, r).
Proof.
  unfold receive_iteration, try_except, recvfrom.
  autorewrite with prog. cbn [mbind result_bind].
  destruct e; cbn; eauto.
Qed.

(** The [while] loop goes on to the next [recvfrom] after an iteration
    that ended normally. *)
Lemma receive_audio_cons net rest st st1 es1 :
  running st = true ->
  receive_iteration net st = (st1, es1, Ok tt) ->
  receive_audio (net :: rest) st =
    let '(st2, es2, r) := receive_audio rest st1 in (st2, es1 ++ es2, r).
Proof.
  intros Hrun Hiter. cbn [receive_audio].
  autorewrite with prog. rewrite Hrun, run_bind, Hiter. done.
Qed.

(** Whatever a datagram holds, its iteration ends normally, with the
    sender bound. *)
Lemma receive_iteration_datagram data addr st :
  ∃ st1 es1,
    receive_iteration (Ok (data, addr)) st = (st1, es1, Ok tt) ∧
    client_address st1 = Some addr ∧
    running st1 = running st ∧
    connect_notifications es1 =
      if decide (client_address st = Some addr) then [] else [addr].
Proof.
  destruct (track_endpoint_props addr st)
    as (st1 & es1 & Htrack & Hcl & Hq & Hrun & Herr & Hconn).
  destruct (decide (length (take 256 data) < 8)%nat) as [Hshort|Hlong].
  - rewrite receive_iteration_short by done. eauto 10.
  - rewrite receive_iteration_long, Htrack by lia.
    destruct (np.frombuffer _) as [a|e].
    + eexists _, _. split; [done|]. by cbn.
    + eexists _, _. split; [done|]. do 2 (split; [done|]).
      unfold connect_notifications in *.
      rewrite omap_app, Hconn. cbn. by rewrite app_nil_r.
Qed.

Lemma receive_iteration_caught e st :
  is_Exception e = true ->
  ∃ es, receive_iteration (Raise e) st = (st, es, Ok tt).
Proof.
  intros Hexn. unfold receive_iteration, try_except, recvfrom.
  autorewrite with prog. cbn [mbind result_bind].
  destruct e; cbn; eauto. done.
Qed.

(** Over a whole run of the loop: the endpoint is the sender of the last
    datagram received so far. *)
Lemma receive_audio_endpoint nets : ∀ st,
  running st = true ->
  Forall (fun net => ∀ e, net = Raise e -> is_Exception e = true) nets ->
  ∃ st' es,
    receive_audio nets st = (st', es, Ok tt) ∧
    client_address st' = last_sender (client_address st) nets.
Proof.
  induction nets as [|net nets IH]; intros st Hrun Hnets.
  - exists st, []. done.
  - apply Forall_cons in Hnets as [Hnet Hnets].
    destruct net as [[data addr]|e].
    + destruct (receive_iteration_datagram data addr st)
        as (st1 & es1 & Hit & Hcl & Hrun1 & _).
      destruct (IH st1) as (st' & es & Hloop & Hlast);
        [congruence | done |].
      rewrite (receive_audio_cons _ _ _ _ _ Hrun Hit), Hloop.
      eexists _, _. split; [done|]. by rewrite Hlast, Hcl.
    + destruct (receive_iteration_caught e st) as (es1 & Hit); [by apply Hnet|].
      destruct (IH st Hrun Hnets) as (st' & es & Hloop & Hlast).
      rewrite (receive_audio_cons _ _ _ _ _ Hrun Hit), Hloop.
      eexists _, _. split; [done|]. done.
Qed.

(** C7.  The server holds at most one endpoint ([client_address] is one
    optional address).  After an iteration that received a datagram it is
    the sender of that datagram: a new sender replaces the previous
    endpoint and is announced once, the current one is kept silently.
    Iterations without a datagram do not touch it. *)
Theorem endpoint_follows_sender st data addr :
  (∃ st1 es1,
     receive_iteration (Ok (data, addr)) st = (st1, es1, Ok tt) ∧
     client_address st1 = Some addr ∧
     connect_notifications es1 =
       if decide (client_address st = Some addr) then [] else [addr]) ∧
  (∀ e, ∃ es r, receive_iteration (Raise e) st = (st, es, r)).
Proof.
  split.
  - destruct (receive_iteration_datagram data addr st)
      as (st1 & es1 & ? & ? & ? & ?). eauto.
  - intros e. apply receive_iteration_no_datagram.
Qed.

(** C5, as the code has it.  A datagram shorter than the 8-byte header
    enqueues no frame and its iteration ends normally, so the loop goes on
    to the next [recvfrom]; no error is logged or counted for it. *)
Theorem short_datagram_discarded st data addr rest :
  running st = true ->
  (length data < 8)%nat ->
  ∃ st1 es1,
    receive_iteration (Ok (data, addr)) st = (st1, es1, Ok tt) ∧
    audio_queue st1 = audio_queue st ∧
    error_count es1 = 0%nat ∧
    receive_audio (Ok (data, addr) :: rest) st =
      let '(st2, es2, r) := receive_audio rest st1 in (st2, es1 ++ es2, r).
Proof.
  intros Hrun Hshort.
  destruct (track_endpoint_props addr st)
    as (st1 & es1 & Htrack & Hcl & Hq & _ & Herr & _).
  assert (receive_iteration (Ok (data, addr)) st = (st1, es1, Ok tt)) as Hit.
  { rewrite receive_iteration_short; [done|]. rewrite length_take. lia. }
  exists st1, es1. split_and!; [done..|].
  by apply receive_audio_cons.
Qed.

Lemma short_datagram_discarded_witness :
  ∃ st1 es1,
    receive_iteration (Ok (Examples.short_datagram, Examples.peer))
      Examples.unbound_server = (st1, es1, Ok tt) ∧
    audio_queue st1 = audio_queue Examples.unbound_server ∧
    error_count es1 = 0%nat ∧
    receive_audio
      [Ok (Examples.short_datagram, Examples.peer);
       Ok (Examples.one_sample_packet, Examples.peer)]
      Examples.unbound_server =
      let '(st2, es2, r) :=
        receive_audio [Ok (Examples.one_sample_packet, Examples.peer)] st1
      in (st2, es1 ++ es2, r).
Proof.
  apply (short_datagram_discarded Examples.unbound_server
           Examples.short_datagram Examples.peer
           [Ok (Examples.one_sample_packet, Examples.peer)]);
    [reflexivity | cbn; lia].
Defined.

(** C5, as stated, fails: a 3-byte datagram from the bound client is
    dropped and nothing records it.  The server is left exactly as it was
    (it has no counter to increment) and nothing is logged, so there is no
    run in which an error has been counted, in the server or in its log. *)
Lemma short_datagram_counts_no_error :
  ¬ ∃ st1 es1,
      receive_iteration (Ok (Examples.short_datagram, Examples.peer))
        Examples.bound_server = (st1, es1, Ok tt) ∧
      audio_queue st1 = audio_queue Examples.bound_server ∧
      (st1 ≠ Examples.bound_server ∨ error_count es1 ≠ 0%nat).
Proof.
  intros (st1 & es1 & Hit & _ & Hcount).
  vm_compute in Hit. injection Hit as <- <-.
  by destruct Hcount.
Qed.

(** C9.  The endpoint is rebound before the header is looked at: a
    datagram shorter than 8 bytes from a new address makes that address
    the endpoint and announces it, and enqueues nothing. *)
Theorem short_datagram_rebinds st data addr :
  (length data < 8)%nat ->
  client_address st ≠ Some addr ->
  receive_iteration (Ok (data, addr)) st =
    (set_client_address addr st, [log INFO (connected_from addr)], Ok tt) ∧
  client_address (set_client_address addr st) = Some addr ∧
  audio_queue (set_client_address addr st) = audio_queue st.
Proof.
  intros Hshort Hnew. split; [|done].
  rewrite receive_iteration_short by (rewrite length_take; lia).
  rewrite track_endpoint_spec. by case_decide.
Qed.

Lemma short_datagram_rebinds_witness :
  receive_iteration (Ok (Examples.short_datagram, Examples.other_peer))
    Examples.bound_server =
    (set_client_address Examples.other_peer Examples.bound_server,
     [log INFO (connected_from Examples.other_peer)], Ok tt) ∧
  client_address
    (set_client_address Examples.other_peer Examples.bound_server)
    = Some Examples.other_peer ∧
  audio_queue (set_client_address Examples.other_peer Examples.bound_server)
    = audio_queue Examples.bound_server.
Proof.
  apply (short_datagram_rebinds Examples.bound_server
           Examples.short_datagram Examples.other_peer);
    [cbn; lia | discriminate].
Defined.

(** C10.  A datagram of at least 8 bytes whose payload slice has an odd
    length enqueues no frame: [np.frombuffer] raises [ValueError], the
    loop's [except Exception] logs it, and the loop goes on to the next
    [recvfrom].  No datagram at all makes an iteration raise. *)
Theorem odd_payload_caught st data addr rest :
  running st = true ->
  (8 <= length (take 256 data))%nat ->
  (length (audio_data (take 256 data)) mod 2 = 1)%nat ->
  (∃ st1 es1,
     receive_iteration (Ok (data, addr)) st =
       (st1, es1 ++ [log ERROR (error_receiving ValueError)], Ok tt) ∧
     audio_queue st1 = audio_queue st ∧
     receive_audio (Ok (data, addr) :: rest) st =
       let '(st2, es2, r) := receive_audio rest st1 in
       (st2, (es1 ++ [log ERROR (error_receiving ValueError)]) ++ es2, r)) ∧
  (∀ st' data' addr', ∃ st1 es1,
     receive_iteration (Ok (data', addr')) st' = (st1, es1, Ok tt) ∧
     running st1 = running st').
Proof.
  intros Hrun Hlong Hodd. split.
  - destruct (track_endpoint_props addr st)
      as (st1 & es1 & Htrack & _ & Hq & _).
    assert (receive_iteration (Ok (data, addr)) st =
              (st1, es1 ++ [log ERROR (error_receiving ValueError)], Ok tt))
      as Hit.
    { rewrite receive_iteration_long, Htrack by done.
      by rewrite frombuffer_odd. }
    exists st1, es1. split_and!; [done..|].
    by apply receive_audio_cons.
  - intros st' data' addr'.
    destruct (receive_iteration_datagram data' addr' st')
      as (st1 & es1 & ? & ? & ? & ?). eauto.
Qed.

Lemma odd_payload_caught_witness :
  (∃ st1 es1,
     receive_iteration (Ok (Examples.odd_payload_packet, Examples.peer))
       Examples.bound_server =
       (st1, es1 ++ [log ERROR (error_receiving ValueError)], Ok tt) ∧
     audio_queue st1 = audio_queue Examples.bound_server ∧
     receive_audio
       [Ok (Examples.odd_payload_packet, Examples.peer);
        Ok (Examples.one_sample_packet, Examples.peer)]
       Examples.bound_server =
       let '(st2, es2, r) :=
         receive_audio [Ok (Examples.one_sample_packet, Examples.peer)] st1
       in
       (st2, (es1 ++ [log ERROR (error_receiving ValueError)]) ++ es2, r)) ∧
  (∀ st' data' addr', ∃ st1 es1,
     receive_iteration (Ok (data', addr')) st' = (st1, es1, Ok tt) ∧
     running st1 = running st').
Proof.
  apply (odd_payload_caught Examples.bound_server
           Examples.odd_payload_packet Examples.peer
           [Ok (Examples.one_sample_packet, Examples.peer)]);
    [reflexivity | cbn; lia | reflexivity].
Defined.

End receive_claims.

(** ** [range] *)

Section range_facts.

Lemma div_up_step (a step : nat) :
  (0 < step -> 0 < a -> (a + step - 1) / step = S ((a - step + step - 1) / step))%nat.
Proof.
  intros Hs Ha.
  destruct (decide (a <= step)%nat) as [Hle|Hgt].
  - replace (a - step + step - 1)%nat with (step - 1)%nat by lia.
    rewrite (Nat.div_small (step - 1)) by lia.
    symmetry. apply (Nat.div_unique _ _ _ (a - 1)); lia.
  - replace (a + step - 1)%nat with ((a - 1) + 1 * step)%nat by lia.
    rewrite Nat.div_add by lia.
    replace (a - step + step - 1)%nat with (a - 1)%nat by lia. lia.
Qed.

Lemma range_from_spec step : (0 < step)%nat -> ∀ fuel i stop,
  (stop <= fuel + i)%nat ->
  range_from fuel i stop step =
    (λ j, i + j * step)%nat <$> seq 0 ((stop - i + step - 1) / step).
Proof.
  intros Hstep. induction fuel as [|fuel IH]; intros i stop Hfuel.
  - replace (stop - i)%nat with 0%nat by lia.
    cbn [range_from]. rewrite Nat.div_small by lia. done.
  - cbn [range_from]. destruct (i <? stop)%nat eqn:Hlt.
    + apply Nat.ltb_lt in Hlt.
      rewrite IH by lia.
      rewrite (div_up_step (stop - i)) by lia.
      cbn [seq fmap list_fmap]. f_equal; [lia|].
      rewrite <- fmap_S_seq, <- list_fmap_compose.
      replace (stop - i - step)%nat with (stop - (i + step))%nat by lia.
      apply list_fmap_ext. intros ? j _. cbn. lia.
    + apply Nat.ltb_ge in Hlt.
      replace (stop - i)%nat with 0%nat by lia.
      rewrite Nat.div_small by lia. done.
Qed.

End range_facts.

(** ** The send loop *)

Section send_loop.

Import struct ESP32AudioServer.

Lemma length_slice {A} (l : list A) i j :
  length (slice l i j) = ((j - i) `min` (length l - i))%nat.
Proof. unfold slice. by rewrite length_take, length_drop. Qed.

Lemma length_padded_chunk a i : length (padded_chunk a i) = 320%nat.
Proof.
  unfold padded_chunk.
  pose proof (length_slice a i (i + 320)) as Hlen.
  destruct (length (slice a i (i + 320)) <? 320)%nat eqn:Hlt.
  - apply Nat.ltb_lt in Hlt. unfold np.pad.
    rewrite length_app, length_replicate. lia.
  - apply Nat.ltb_ge in Hlt. lia.
Qed.

(** What the receiver's parser reads in a packet built by the sender. *)
Lemma parse_build_packet ts sq chunk p :
  build_packet ts sq chunk = Ok p ->
  parse_packet p =
    Ok (ts, sq, Z.of_nat (length chunk) * 2, np.tobytes chunk) ∧
  length p = (8 + 2 * length chunk)%nat.
Proof.
  unfold build_packet, frame.
  destruct (pack_IHH ts sq _) as [h|e] eqn:Hpack; [|done].
  cbn. intros [= <-].
  pose proof (length_pack_IHH _ _ _ _ Hpack) as Hlen.
  split; [|rewrite length_app, length_tobytes; lia].
  unfold parse_packet, slice.
  rewrite drop_0, Nat.sub_0_r, take_app_length' by done.
  rewrite (unpack_pack_IHH _ _ _ _ Hpack). cbn.
  rewrite drop_app_length' by done.
  rewrite take_ge; [done|]. rewrite length_tobytes. lia.
Qed.

Lemma nth_packet_in_range a clock j ts :
  timestamp_ms (clock j) = Ok ts ->
  0 <= ts < 2 ^ 32 -> Z.of_nat j < 65536 ->
  ∃ p, nth_packet a clock j = Ok p ∧
       parse_packet p =
         Ok (ts, Z.of_nat j, 640,
             np.tobytes (padded_chunk a (j * 320))) ∧
       length p = 648%nat.
Proof.
  intros Hstamp Hts Hj. unfold nth_packet. rewrite Hstamp.
  cbn [mbind result_bind].
  destruct (build_packet _ _ _) as [p|e] eqn:Hbuild.
  - exists p. split; [done|].
    apply parse_build_packet in Hbuild as [-> ->].
    by rewrite length_padded_chunk.
  - exfalso. revert Hbuild. unfold build_packet, frame.
    rewrite pack_IHH_in_range; [done|done|lia|].
    rewrite length_padded_chunk. lia.
Qed.

Lemma run_sock_sendto packet st addr :
  client_address st = Some addr ->
  sock_sendto packet st = (st, [sendto packet addr], Ok tt).
Proof.
  intros Hbound. unfold sock_sendto. rewrite run_gets_bind, Hbound. done.
Qed.

Lemma run_sock_sendto_unbound packet st :
  client_address st = None ->
  sock_sendto packet st = (st, [], Raise TypeError).
Proof.
  intros Hnone. unfold sock_sendto. rewrite run_gets_bind, Hnone. done.
Qed.

Context (audio : list Z) (addr : address) (clock : nat -> Q).

(** One turn of the [for] loop, by the packet it builds. *)
Lemma send_chunks_cons i rest k sq st :
  send_chunks audio clock (i :: rest) k sq st =
    match (timestamp ← timestamp_ms (clock k);
           build_packet timestamp sq (padded_chunk audio i)) with
    | Ok packet =>
        (sock_sendto packet;; emit (sleep 0.018);;
         send_chunks audio clock rest (S k) (sq + 1)) st
    | Raise e => (st, [], Raise e)
    end.
Proof.
  cbn [send_chunks]. rewrite run_lift_bind.
  destruct (timestamp_ms (clock k)) as [ts|e]; [|done].
  cbn [mbind result_bind]. by rewrite run_lift_bind.
Qed.

Lemma send_chunks_spec m : ∀ j0 st,
  client_address st = Some addr ->
  (∀ j, (j0 <= j < j0 + m)%nat -> ∃ p, nth_packet audio clock j = Ok p) ->
  ∃ es,
    send_chunks audio clock ((λ j, j * 320)%nat <$> seq j0 m)
      j0 (Z.of_nat j0) st = (st, es, Ok tt) ∧
    Ok <$> packets_sent es = nth_packet audio clock <$> seq j0 m ∧
    error_count es = 0%nat.
Proof.
  induction m as [|m IH]; intros j0 st Hbound Hok.
  - exists []. done.
  - destruct (Hok j0) as [p Hp]; [lia|].
    destruct (IH (S j0) st Hbound) as (es & Hrun & Hsent & Herr).
    { intros j Hj. apply Hok. lia. }
    exists (sendto p addr :: sleep 0.018 :: es).
    cbn [seq fmap list_fmap]. rewrite send_chunks_cons.
    unfold nth_packet in Hp. rewrite Hp.
    rewrite run_bind, (run_sock_sendto _ _ _ Hbound).
    autorewrite with prog.
    replace (Z.of_nat j0 + 1) with (Z.of_nat (S j0)) by lia.
    rewrite Hrun. split; [done|]. split; [|done].
    change (packets_sent (sendto p addr :: sleep 0.018 :: es))
      with (p :: packets_sent es).
    rewrite fmap_cons, Hsent. f_equal. unfold nth_packet. by rewrite Hp.
Qed.

End send_loop.

Section send_claims.

Import struct ESP32AudioServer.

Context {F : Type} (scale_int16 : F -> Z).

Lemma range_chunks L :
  range 0 L 320 = (λ j, j * 320)%nat <$> seq 0 ((L + 319) / 320).
Proof.
  unfold range. rewrite range_from_spec by lia.
  rewrite Nat.sub_0_r. replace (L + 320 - 1)%nat with (L + 319)%nat by lia.
  by apply list_fmap_ext.
Qed.

(** C6.  With no client bound, [send_audio] logs the warning and
    returns: nothing is sent, nothing is raised, the server is as it
    was. *)
Theorem send_audio_unbound audio clock st :
  client_address st = None ->
  send_audio scale_int16 audio clock st =
    (st, [log WARNING no_client_connected], Ok tt) ∧
  packets_sent [log WARNING no_client_connected] = [].
Proof.
  intros Hnone. split; [|done].
  unfold send_audio. autorewrite with prog. by rewrite Hnone.
Qed.

End send_claims.

Section send_examples.

Import struct ESP32AudioServer.

Lemma send_audio_unbound_witness :
  send_audio Examples.scale Examples.waveform_700 Examples.early_clock
    Examples.unbound_server =
    (Examples.unbound_server, [log WARNING no_client_connected], Ok tt) ∧
  packets_sent [log WARNING no_client_connected] = [].
Proof.
  apply (send_audio_unbound Examples.scale Examples.waveform_700
           Examples.early_clock Examples.unbound_server).
  reflexivity.
Defined.

(** The header declares the size of the chunk after padding: for a
    one-sample waveform, whatever the clock reads, there is no run in
    which the last packet declares [1 mod 320] payload bytes (or twice
    that).  When the packet is sent at all, it declares 640. *)
Lemma final_chunk_declares_padded_size :
  ¬ ∃ clock es p,
      send_audio Examples.scale Examples.one_sample clock
        Examples.bound_server = (Examples.bound_server, es, Ok tt) ∧
      length (packets_sent es) = 1%nat ∧
      last (packets_sent es) = Some p ∧
      (payload_size p = 1 mod 320 ∨ payload_size p = 2 * (1 mod 320)).
Proof.
  intros (clock & es & p & Hrun & _ & Hlast & Hsize).
  unfold send_audio in Hrun. autorewrite with prog in Hrun.
  cbn [Examples.bound_server client_address Examples.one_sample
       to_int16 length] in Hrun.
  change (range 0 1 320) with [0%nat] in Hrun.
  rewrite run_emit_bind, send_chunks_cons in Hrun.
  destruct (timestamp_ms (clock 0%nat)) as [ts|e]; [|done].
  cbn [mbind result_bind] in Hrun.
  destruct (build_packet _ _ _) as [q|e] eqn:Hq; [|done].
  rewrite run_bind, (run_sock_sendto _ _ Examples.peer) in Hrun by done.
  cbn [send_chunks] in Hrun.
  autorewrite with prog in Hrun. injection Hrun as <-.
  cbn in Hlast. injection Hlast as <-.
  apply parse_build_packet in Hq as [Hparse Hlen].
  apply parse_packet_inv in Hparse as (_ & Hdeclared & _); [|lia].
  rewrite <- Hdeclared, length_padded_chunk in Hsize.
  by destruct Hsize.
Qed.

End send_examples.


(** ** The WebSocket test server *)

Section websocket_claims.

Import HowdyTTSTestServer.

Variable format_value : json -> string.
Variable json_loads : string -> loads_outcome.

Lemma error_message_type text stamp :
  error_message text stamp !! "type" = Some (JStr "error").
Proof. done. Qed.

(** The [async for] loop goes on to the next frame after a frame handled
    normally. *)
Lemma message_loop_cons ev rest info st st1 es1 :
  on_message format_value json_loads ev info st = (st1, es1, Ok next) ->
  message_loop format_value json_loads (ev :: rest) info st =
    let '(st2, es2, r) :=
      message_loop format_value json_loads rest info st1 in
    (st2, es1 ++ es2, r).
Proof.
  intros Hev. cbn [message_loop]. by rewrite run_bind, Hev.
Qed.

(** The test server has no branch for [tts_audio_chunk]: such a message,
    whatever it carries, falls through to the last branch of the
    dispatcher and is answered with an ["error"] message. *)
Lemma chunk_message_rejected (d : dict) info stamp st :
  d !! "type" = Some (JStr "tts_audio_chunk") ->
  handle_websocket_message format_value (JDict d) info stamp st =
    (st,
     [send_str (error_message "Unknown message type: tts_audio_chunk" stamp)],
     Ok tt) ∧
  error_message "Unknown message type: tts_audio_chunk" stamp !! "type"
    = Some (JStr "error").
Proof.
  intros Htype. split; [|done].
  unfold handle_websocket_message. rewrite run_lift_bind.
  cbn [get]. by rewrite Htype.
Qed.

(** A text frame on which [json.loads] raises [JSONDecodeError] is
    answered with an ["error"] message, the handler ends normally, and the
    loop goes on with the frames that follow. *)
Lemma invalid_json_answered ev text info rest st :
  msg ev = TEXT text ->
  json_loads text = decode_error ->
  on_message format_value json_loads ev info st =
    (st, [send_str (error_message "Invalid JSON format" (timestamp ev))],
     Ok next) ∧
  error_message "Invalid JSON format" (timestamp ev) !! "type"
    = Some (JStr "error") ∧
  message_loop format_value json_loads (ev :: rest) info st =
    (let '(st2, es2, r) :=
       message_loop format_value json_loads rest info st in
     (st2,
      send_str (error_message "Invalid JSON format" (timestamp ev)) :: es2,
      r)).
Proof.
  intros Hmsg Hbad.
  assert (on_message format_value json_loads ev info st =
            (st, [send_str (error_message "Invalid JSON format"
                              (timestamp ev))], Ok next)) as Hev.
  { unfold on_message. rewrite Hmsg, Hbad.
    by rewrite run_bind. }
  split; [done|]. split; [done|].
  by rewrite (message_loop_cons _ _ _ _ _ _ Hev).
Qed.

End websocket_claims.

Section websocket_examples.

Import HowdyTTSTestServer.

Lemma chunk_message_rejected_witness :
  handle_websocket_message Examples.format_value
    (JDict Examples.chunk_message) Examples.ws_client "2025-11-03T12:00:03"
    Examples.test_server =
    (Examples.test_server,
     [send_str (error_message "Unknown message type: tts_audio_chunk"
                  "2025-11-03T12:00:03")],
     Ok tt) ∧
  error_message "Unknown message type: tts_audio_chunk" "2025-11-03T12:00:03"
    !! "type" = Some (JStr "error").
Proof.
  apply (chunk_message_rejected Examples.format_value Examples.chunk_message
           Examples.ws_client "2025-11-03T12:00:03" Examples.test_server).
  reflexivity.
Defined.

Lemma invalid_json_answered_witness :
  on_message Examples.format_value Examples.json_loads Examples.broken_text
    Examples.ws_client Examples.test_server =
    (Examples.test_server,
     [send_str (error_message "Invalid JSON format"
                  (timestamp Examples.broken_text))],
     Ok next) ∧
  error_message "Invalid JSON format" (timestamp Examples.broken_text)
    !! "type" = Some (JStr "error") ∧
  message_loop Examples.format_value Examples.json_loads
    [Examples.broken_text; Examples.empty_object_text] Examples.ws_client
    Examples.test_server =
    (let '(st2, es2, r) :=
       message_loop Examples.format_value Examples.json_loads
         [Examples.empty_object_text] Examples.ws_client Examples.test_server in
     (st2,
      send_str (error_message "Invalid JSON format"
                  (timestamp Examples.broken_text)) :: es2,
      r)).
Proof.
  apply (invalid_json_answered Examples.format_value Examples.json_loads
           Examples.broken_text "{not json" Examples.ws_client
           [Examples.empty_object_text] Examples.test_server);
    reflexivity.
Defined.

End websocket_examples.

(** ** The reply session: chunks in order *)

Section reply_session.

Import ReplySession.




End reply_session.


(** ** What a reply can do to the segmentation loop *)

Section send_any.

Import struct ESP32AudioServer.

Lemma pack_uint_raises n v e :
  pack_uint n v = Raise e -> e = struct_error.
Proof.
  unfold pack_uint. destruct (_ && _); [done|]. by intros [= <-].
Qed.

Lemma pack_IHH_raises a b c e :
  pack_IHH a b c = Raise e -> e = struct_error.
Proof.
  unfold pack_IHH.
  destruct (pack_uint 4 a) as [x|e1] eqn:Ha; cbn;
    [|intros [= <-]; by eapply pack_uint_raises].
  destruct (pack_uint 2 b) as [y|e2] eqn:Hb; cbn;
    [|intros [= <-]; by eapply pack_uint_raises].
  destruct (pack_uint 2 c) as [z|e3] eqn:Hc; cbn;
    [done|intros [= <-]; by eapply pack_uint_raises].
Qed.

Lemma build_packet_raises ts sq chunk e :
  build_packet ts sq chunk = Raise e -> e = struct_error.
Proof.
  unfold build_packet, frame.
  destruct (pack_IHH _ _ _) as [h|e1] eqn:Hpack; cbn; [done|].
  intros [= <-]. by eapply pack_IHH_raises.
Qed.

Lemma timestamp_ms_raises now e :
  timestamp_ms now = Raise e -> e = OverflowError.
Proof.
  unfold timestamp_ms, float.to_int.
  destruct (float.mul now 1000); by intros [= <-].
Qed.

(** Whatever the waveform and the clock, [send_audio] leaves the server as
    it was, hands nothing to the transcriber, and raises ordinary
    exceptions only. *)
Lemma send_chunks_any audio clock indices : ∀ k sq st,
  ∃ es r,
    send_chunks audio clock indices k sq st = (st, es, r) ∧
    utterances es = [] ∧
    (∀ e, r = Raise e -> is_Exception e = true).
Proof.
  induction indices as [|i rest IH]; intros k sq st.
  - exists [], (Ok tt). done.
  - rewrite send_chunks_cons.
    destruct (timestamp_ms (clock k)) as [ts|e] eqn:Hts;
      cbn [mbind result_bind].
    + destruct (build_packet _ _ _) as [p|e] eqn:Hp.
      * destruct (IH (S k) (sq + 1) st) as (es & r & Hrun & Hutt & Hr).
        rewrite run_bind.
        destruct (client_address st) as [addr|] eqn:Hbound.
        -- rewrite (run_sock_sendto _ _ _ Hbound).
           autorewrite with prog. rewrite Hrun. eauto.
        -- rewrite (run_sock_sendto_unbound _ _ Hbound).
           exists [], (Raise TypeError).
           do 2 (split; [done|]). by intros ? [= <-].
      * apply build_packet_raises in Hp as ->.
        exists [], (Raise struct_error). do 2 (split; [done|]).
        by intros ? [= <-].
    + apply timestamp_ms_raises in Hts as ->.
      exists [], (Raise OverflowError). do 2 (split; [done|]).
      by intros ? [= <-].
Qed.

Lemma send_audio_any {F} (scale_int16 : F -> Z) audio clock st :
  ∃ es r,
    send_audio scale_int16 audio clock st = (st, es, r) ∧
    utterances es = [] ∧
    (∀ e, r = Raise e -> is_Exception e = true).
Proof.
  unfold send_audio. rewrite run_gets_bind.
  destruct (client_address st) as [addr|].
  - rewrite run_emit_bind.
    destruct (send_chunks_any (to_int16 scale_int16 audio) clock
                (range 0 (length (to_int16 scale_int16 audio)) 320) 0%nat 0 st)
      as (es & r & Hrun & Hutt & Hr).
    rewrite Hrun. eauto.
  - exists [log WARNING no_client_connected], (Ok tt). done.
Qed.

End send_any.

(** ** A reply on a host whose clock is set *)

Section send_failure.

Import struct ESP32AudioServer.

Lemma build_packet_timestamp_too_large ts sq chunk :
  2 ^ 32 <= ts -> build_packet ts sq chunk = Raise struct_error.
Proof.
  intros Hts.
  destruct (build_packet ts sq chunk) as [p|e] eqn:Hbuild;
    [exfalso | f_equal; by eapply build_packet_raises].
  unfold build_packet, frame in Hbuild.
  destruct (pack_IHH _ _ _) as [h|e] eqn:Hpack; [|done].
  apply pack_IHH_inv in Hpack as [(Hrange & _) _]. lia.
Qed.

(** The timestamp is packed as an unsigned 32-bit field without being
    reduced.  Whatever the waveform, when the first reading of the clock
    gives a timestamp of [2^32] ms or more (any time from 19 February 1970
    on), [struct.pack] raises on the first chunk and nothing is sent. *)
Lemma send_audio_timestamp_too_large {F} (scale_int16 : F -> Z)
    audio clock st addr ts :
  client_address st = Some addr ->
  (0 < length (to_int16 scale_int16 audio))%nat ->
  timestamp_ms (clock 0%nat) = Ok ts ->
  2 ^ 32 <= ts ->
  send_audio scale_int16 audio clock st =
    (st, [log INFO (sending_samples (length (to_int16 scale_int16 audio)))],
     Raise struct_error).
Proof.
  intros Hbound Hpos Hstamp Hts.
  unfold send_audio. autorewrite with prog. rewrite Hbound.
  autorewrite with prog. rewrite range_chunks.
  set (n := ((length (to_int16 scale_int16 audio) + 319) / 320)%nat).
  assert (n ≠ 0)%nat as Hn.
  { unfold n. intros Hz. apply Nat.div_small_iff in Hz; lia. }
  destruct n as [|n]; [done|].
  cbn [seq fmap list_fmap]. rewrite send_chunks_cons, Hstamp.
  cbn [mbind result_bind].
  by rewrite build_packet_timestamp_too_large.
Qed.

(** C1.  The code on a present-day host.  With a client bound and the
    clock of November 2025, [send_audio] on a one-sample waveform logs the
    sample count and then fails on its first header:
    [int(time.time() * 1000)] is 1762000000000, which the 32-bit timestamp
    field cannot hold, so [struct.pack] raises [struct.error].  No packet
    is sent, where the claim counts [ceil(1 / 320) = 1] packet. *)
Theorem send_audio_present_day_clock :
  timestamp_ms (Examples.present_clock 0) = Ok 1762000000000 ∧
  send_audio Examples.scale Examples.one_sample Examples.present_clock
    Examples.bound_server =
    (Examples.bound_server, [log INFO (sending_samples 1)],
     Raise struct_error) ∧
  packets_sent [log INFO (sending_samples 1)] = [] ∧
  ((1 + 319) / 320)%nat = 1%nat.
Proof.
  assert (timestamp_ms (Examples.present_clock 0) = Ok 1762000000000)
    as Hstamp by (vm_compute; reflexivity).
  split; [exact Hstamp|]. split; [|split; reflexivity].
  apply (send_audio_timestamp_too_large Examples.scale Examples.one_sample
           Examples.present_clock Examples.bound_server Examples.peer
           1762000000000).
  - reflexivity.
  - cbn. lia.
  - exact Hstamp.
  - lia.
Qed.

(** The product is the float product: at the reading 4.35 s, the double
    nearest to 4.35, the exact product is just below 4350 and the rounded
    one is 4350. *)
Example timestamp_ms_rounds_product :
  timestamp_ms (2448832297382707 # 562949953421312) = Ok 4350 ∧
  int ((2448832297382707 # 562949953421312) * 1000) = 4349.
Proof. split; vm_compute; reflexivity. Qed.

End send_failure.

(** ** The segmentation loop *)

Section segmentation.

Import HowdyTTSESP32Integration.

Context {F : Type} (scale_int16 : F -> Z).
Variable transcribe : list Q -> result string.
Variable text_to_speech : string -> list F.
Variable self : t.

(** Whisper fails with ordinary exceptions only. *)
Hypothesis transcribe_raises :
  ∀ a e, transcribe a = Raise e -> is_Exception e = true.

Let iteration := process_iteration scale_int16 transcribe text_to_speech self.
Let loop := process_loop scale_int16 transcribe text_to_speech self.

Lemma Qltb_true x y : Qltb x y = true <-> (x < y)%Q.
Proof.
  unfold Qltb. rewrite negb_true_iff, <- not_true_iff_false, Qle_bool_iff.
  split; [apply Qnot_le_lt | apply Qlt_not_le].
Qed.

Lemma Qltb_false x y : Qltb x y = false <-> (y <= x)%Q.
Proof.
  unfold Qltb. by rewrite negb_false_iff, Qle_bool_iff.
Qed.

(** A frame is appended and restarts the silence clock. *)
Lemma frame_step env chunk st :
  get env = Ok chunk ->
  iteration env st =
    (mk_locals (audio_buffer st ++ chunk) (now env) false, [], Ok next).
Proof.
  intros Hget. unfold iteration, process_iteration, try_except.
  rewrite run_lift_bind, Hget. by autorewrite with prog.
Qed.

Lemma poll_step env st :
  get env = Raise queue_Empty ->
  iteration env st =
    on_empty scale_int16 transcribe text_to_speech self env st.
Proof.
  intros Hget. unfold iteration, process_iteration, try_except.
  rewrite run_lift_bind, Hget.
  by destruct (on_empty _ _ _ _ _ _) as [[??]?].
Qed.


Lemma poll_step_quiet env st :
  get env = Raise queue_Empty ->
  ((now env - last_audio_time st) * 1000 <= silence_threshold_ms self)%Q ->
  iteration env st = (st, [], Ok next).
Proof.
  intros Hget Hquiet%Qltb_false. rewrite poll_step by done.
  unfold on_empty. autorewrite with prog. rewrite Hquiet.
  by rewrite andb_false_r.
Qed.






(** The [while True] loop goes on after a turn that ended with [next]. *)
Lemma loop_cons env rest st st1 es1 :
  iteration env st = (st1, es1, Ok next) ->
  loop (env :: rest) st =
    let '(st2, es2, r) := loop rest st1 in (st2, es1 ++ es2, r).
Proof.
  intros Hit. unfold loop. cbn [process_loop].
  fold iteration. by rewrite run_bind, Hit.
Qed.

Lemma loop_cons_silent env rest st st1 :
  iteration env st = (st1, [], Ok next) -> loop (env :: rest) st = loop rest st1.
Proof.
  intros Hit. rewrite (loop_cons _ _ _ _ _ Hit).
  by destruct (loop rest st1) as [[??]?].
Qed.


Lemma samples_of_frame env envs chunk :
  get env = Ok chunk -> samples_of (env :: envs) = chunk ++ samples_of envs.
Proof. intros Hget. unfold samples_of, frame_of. cbn. by rewrite Hget. Qed.

Lemma samples_of_poll env envs e :
  get env = Raise e -> samples_of (env :: envs) = samples_of envs.
Proof. intros Hget. unfold samples_of, frame_of. cbn. by rewrite Hget. Qed.

(** Frames and quiet polls only accumulate. *)
Lemma quiet_run envs : ∀ st rest,
  processing st = false ->
  quiet self (last_audio_time st) envs ->
  loop (envs ++ rest) st =
    loop rest (mk_locals (audio_buffer st ++ samples_of envs)
                 (last_frame_time (last_audio_time st) envs) false).
Proof.
  induction envs as [|env envs IH]; intros st rest Hproc Hquiet.
  - destruct st as [buffer last busy]. cbn in *. subst busy.
    by rewrite app_nil_r.
  - rewrite <- app_comm_cons. cbn [quiet last_frame_time] in *.
    unfold frame_of. destruct (get env) as [chunk|e] eqn:Hget.
    + rewrite (loop_cons_silent env _ st _ (frame_step _ _ _ Hget)).
      rewrite IH by done. cbn [audio_buffer last_audio_time].
      by rewrite (samples_of_frame _ _ _ Hget), app_assoc.
    + destruct e; try done. destruct Hquiet as [Hle Hquiet].
      rewrite (loop_cons_silent env _ st st) by by apply poll_step_quiet.
      rewrite IH by done. by rewrite (samples_of_poll _ _ _ Hget).
Qed.



End segmentation.

Section segmentation_claims.

Import HowdyTTSESP32Integration.



(** With the default parameters, half a second is 8000 samples. *)
Lemma long_enough_defaults g :
  long_enough defaults g = (8000 <=? Z.of_nat (length (group_samples g))).
Proof.
  unfold long_enough, duration, Qltb, Qle_bool.
  generalize (length (group_samples g)). intros n. cbn.
  rewrite negb_involutive.
  destruct (8000 <=? Z.of_nat n) eqn:Hn.
  - apply Z.leb_le in Hn.
    destruct (n =? 0)%nat eqn:Hz; [apply Nat.eqb_eq in Hz; lia|].
    cbn. apply Z.leb_le. lia.
  - apply Z.leb_gt in Hn.
    destruct (n =? 0)%nat eqn:Hz; [done|].
    cbn. apply Z.leb_gt. lia.
Qed.


End segmentation_claims.

Section segmentation_examples.

Import HowdyTTSESP32Integration.



(** What the loop does hand on there: one utterance of 18000 samples. *)
Example two_bursts_merged :
  Z.of_nat <$> (length <$> utterances
    (process_audio_stream Examples.scale Examples.deaf_transcribe
       Examples.mute_text_to_speech defaults 9.9 Examples.two_bursts).1.2)
  = [18000].
Proof. by vm_compute. Qed.

(** The scenarios of the specification: ten frames of 160 samples 20 ms
    apart and 600 ms of silence give nothing; 9000 samples and 600 ms of
    silence give one utterance of 9000 samples. *)
Example ten_short_frames_discarded :
  let frames := (fun k => Examples.burst 160 3 (10 + inject_Z (Z.of_nat k) * 0.02))
                  <$> seq 0 10 in
  let run := process_audio_stream Examples.scale Examples.deaf_transcribe
               Examples.mute_text_to_speech defaults 9.9
               (frames ++ [Examples.poll 10.78]) in
  utterances run.1.2 = [] ∧ audio_buffer run.1.1 = [] ∧ run.2 = Ok tt.
Proof. by vm_compute. Qed.

Example nine_thousand_samples_emitted :
  let run := process_audio_stream Examples.scale Examples.deaf_transcribe
               Examples.mute_text_to_speech defaults 9.9
               [Examples.burst (9 * 1000) 3 10; Examples.poll 10.6] in
  Z.of_nat <$> (length <$> utterances run.1.2) = [9000] ∧
  audio_buffer run.1.1 = [] ∧ run.2 = Ok tt.
Proof. by vm_compute. Qed.

End segmentation_examples.

(* ===================================================================== *)
(** * Further properties *)
(* ===================================================================== *)

(** ** The receive loop, outcome by outcome *)

Section receive_accounting.

Import struct ESP32AudioServer.

Lemma error_count_app es1 es2 :
  error_count (es1 ++ es2) = (error_count es1 + error_count es2)%nat.
Proof. unfold error_count. by rewrite filter_app, length_app. Qed.

Lemma int16_pairs_range buf :
  Forall (fun x => -32768 <= x < 32768) (np.int16_pairs buf).
Proof.
  assert (∀ n buf, (length buf <= n)%nat ->
            Forall (fun x => -32768 <= x < 32768) (np.int16_pairs buf)) as H.
  { induction n as [|n IH]; intros [|lo [|hi rest]] Hlen; cbn in *;
      try lia; try by constructor.
    constructor; [apply int16_of_bytes_range | apply IH; lia]. }
  by apply (H (length buf)).
Qed.

Lemma length_audio_data data :
  length (audio_data data) =
    (Z.to_nat (payload_size data) `min` (length data - 8))%nat.
Proof. unfold audio_data. rewrite length_slice. f_equal. lia. Qed.

Lemma frombuffer_even buf :
  (length buf mod 2 = 0)%nat -> np.frombuffer buf = Ok (np.int16_pairs buf).
Proof. intros Hev. unfold np.frombuffer. by rewrite Hev. Qed.

Lemma frombuffer_raises_odd buf e :
  np.frombuffer buf = Raise e -> (length buf mod 2 =? 0)%nat = false.
Proof.
  unfold np.frombuffer. by destruct (length buf mod 2 =? 0)%nat.
Qed.

(** What one outcome of [recvfrom] does to the server and to the log. *)
Lemma receive_iteration_account net st :
  (∀ e, net = Raise e -> is_Exception e = true) ->
  ∃ st1 es1,
    receive_iteration net st = (st1, es1, Ok tt) ∧
    running st1 = running st ∧
    client_address st1 = last_sender (client_address st) [net] ∧
    audio_queue st1 = audio_queue st ++ option_list (Received.frame_of net) ∧
    error_count es1 = (if Received.failed net then 1 else 0)%nat.
Proof.
  intros Hexn. destruct net as [[data addr]|e].
  - destruct (track_endpoint_props addr st)
      as (st1 & es1 & Htrack & Hcl & Hq & Hrun & Herr & _).
    cbn [last_sender foldl Received.frame_of Received.failed].
    destruct (8 <=? length (take 256 data))%nat eqn:Hlen.
    + apply Nat.leb_le in Hlen.
      rewrite receive_iteration_long, Htrack by done.
      destruct (np.frombuffer _) as [a|e] eqn:Hbuf.
      * apply frombuffer_inv in Hbuf as Hbuf'. destruct Hbuf' as [Hev _].
        rewrite Hev. eexists _, _. split; [done|]. cbn.
        by rewrite Hq, Herr.
      * rewrite (frombuffer_raises_odd _ _ Hbuf).
        eexists _, _. split; [done|]. cbn [option_list andb negb].
        rewrite error_count_app, Herr, app_nil_r. done.
    + apply Nat.leb_gt in Hlen.
      rewrite receive_iteration_short, Htrack by done.
      eexists _, _. split; [done|]. cbn. by rewrite app_nil_r.
  - specialize (Hexn e eq_refl).
    unfold receive_iteration, try_except, recvfrom.
    autorewrite with prog. cbn [mbind result_bind].
    destruct e; try done; cbn;
      eexists _, _; (split; [done|]); by rewrite app_nil_r.
Qed.

Lemma receive_audio_account nets : ∀ st,
  running st = true ->
  Forall (fun net => ∀ e, net = Raise e -> is_Exception e = true) nets ->
  ∃ st' es,
    receive_audio nets st = (st', es, Ok tt) ∧
    running st' = true ∧
    client_address st' = last_sender (client_address st) nets ∧
    audio_queue st' = audio_queue st ++ omap Received.frame_of nets ∧
    error_count es = length (filter (fun net => Received.failed net = true) nets).
Proof.
  induction nets as [|net nets IH]; intros st Hrun Hnets.
  - exists st, []. by rewrite app_nil_r.
  - apply Forall_cons in Hnets as [Hnet Hnets].
    destruct (receive_iteration_account net st Hnet)
      as (st1 & es1 & Hit & Hrun1 & Hcl1 & Hq1 & Herr1).
    destruct (IH st1) as (st' & es & Hloop & Hrun' & Hcl' & Hq' & Herr');
      [congruence | done |].
    rewrite (receive_audio_cons _ _ _ _ _ Hrun Hit), Hloop.
    eexists _, _. split; [done|]. split; [done|].
    split; [by rewrite Hcl', Hcl1|]. split.
    + rewrite Hq', Hq1, <- app_assoc. f_equal.
      cbn [omap list_omap]. by destruct (Received.frame_of net).
    + rewrite error_count_app, Herr', Herr1, filter_cons.
      destruct (Received.failed net); by case_decide.
Qed.

(** X1.  A datagram of at least 8 bytes whose payload slice has an even
    length puts exactly one frame at the back of the queue and logs no
    error.  The frame holds the bytes [data[8:8+data_size]] read as
    little-endian int16 values: half as many samples as the smaller of the
    declared size and the bytes that arrived after the header. *)
Theorem valid_frame_enqueued st data addr :
  (8 <= length (take 256 data))%nat ->
  (length (audio_data (take 256 data)) mod 2 = 0)%nat ->
  ∃ st1 es1 samples,
    receive_iteration (Ok (data, addr)) st = (st1, es1, Ok tt) ∧
    audio_queue st1 = audio_queue st ++ [samples] ∧
    error_count es1 = 0%nat ∧
    np.tobytes samples = audio_data (take 256 data) ∧
    (2 * length samples)%nat =
      (Z.to_nat (payload_size (take 256 data))
         `min` (length (take 256 data) - 8))%nat ∧
    Forall (fun x => -32768 <= x < 32768) samples.
Proof.
  intros Hlen Hev.
  destruct (track_endpoint_props addr st)
    as (st1 & es1 & Htrack & _ & Hq & _ & Herr & _).
  pose proof (frombuffer_even _ Hev) as Hbuf.
  exists (audio_queue_put (np.int16_pairs (audio_data (take 256 data))) st1),
    es1, (np.int16_pairs (audio_data (take 256 data))).
  split; [by rewrite receive_iteration_long, Htrack, Hbuf|].
  split; [cbn; by rewrite Hq|]. split; [done|].
  destruct (tobytes_frombuffer _ _ Hbuf) as [Hbytes Hcount].
  split; [done|]. split; [by rewrite Hcount, length_audio_data|].
  apply int16_pairs_range.
Qed.

Lemma valid_frame_enqueued_witness :
  ∃ st1 es1 samples,
    receive_iteration (Ok (Examples.truncated_packet, Examples.peer))
      Examples.bound_server = (st1, es1, Ok tt) ∧
    audio_queue st1 = audio_queue Examples.bound_server ++ [samples] ∧
    error_count es1 = 0%nat ∧
    np.tobytes samples = audio_data (take 256 Examples.truncated_packet) ∧
    (2 * length samples)%nat =
      (Z.to_nat (payload_size (take 256 Examples.truncated_packet))
         `min` (length (take 256 Examples.truncated_packet) - 8))%nat ∧
    Forall (fun x => -32768 <= x < 32768) samples.
Proof.
  apply (valid_frame_enqueued Examples.bound_server Examples.truncated_packet
           Examples.peer); [cbn; lia | reflexivity].
Defined.

(** X2.  Whatever arrives, one iteration adds at most one frame to the
    queue, and a frame never holds more than 124 samples: [recvfrom(256)]
    leaves at most 248 bytes after the header. *)
Theorem frame_at_most_124_samples st data addr :
  ∃ st1 es1,
    receive_iteration (Ok (data, addr)) st = (st1, es1, Ok tt) ∧
    (audio_queue st1 = audio_queue st ∨
     ∃ samples, audio_queue st1 = audio_queue st ++ [samples] ∧
                (length samples <= 124)%nat).
Proof.
  destruct (receive_iteration_account (Ok (data, addr)) st)
    as (st1 & es1 & Hit & _ & _ & Hq & _); [done|].
  exists st1, es1. split; [done|].
  cbn [Received.frame_of] in Hq.
  destruct (8 <=? length (take 256 data))%nat eqn:Hlen;
    [|left; by rewrite Hq, app_nil_r].
  destruct (np.frombuffer _) as [samples|e] eqn:Hbuf;
    [|left; by rewrite Hq, app_nil_r].
  right. exists samples. split; [done|].
  apply tobytes_frombuffer in Hbuf as [_ Hcount].
  rewrite length_audio_data, length_take in Hcount. lia.
Qed.

(** X3.  Over a whole run of the loop on a started server, with any mix of
    datagrams, timeouts and socket errors, nothing is raised, the endpoint
    ends up being the sender of the last datagram, and the queue has grown
    by the frames of the well-formed datagrams, in arrival order: none is
    lost, duplicated or reordered. *)
Theorem receive_audio_run nets st :
  running st = true ->
  Forall (fun net => ∀ e, net = Raise e -> is_Exception e = true) nets ->
  ∃ st' es,
    receive_audio nets st = (st', es, Ok tt) ∧
    running st' = true ∧
    client_address st' = last_sender (client_address st) nets ∧
    audio_queue st' = audio_queue st ++ omap Received.frame_of nets.
Proof.
  intros Hrun Hnets.
  destruct (receive_audio_account nets st Hrun Hnets)
    as (st' & es & ? & ? & ? & ? & _). eauto 10.
Qed.

Lemma receive_audio_run_witness :
  ∃ st' es,
    receive_audio Examples.session Examples.unbound_server = (st', es, Ok tt) ∧
    running st' = true ∧
    client_address st' =
      last_sender (client_address Examples.unbound_server) Examples.session ∧
    audio_queue st' =
      audio_queue Examples.unbound_server
        ++ omap Received.frame_of Examples.session.
Proof.
  apply (receive_audio_run Examples.session Examples.unbound_server).
  - reflexivity.
  - repeat constructor; intros e H; try discriminate H; by injection H as <-.
Defined.

(** X4.  In such a run the ERROR lines of the log count exactly the
    outcomes that failed: a [recvfrom] that raised something other than a
    timeout, or a datagram whose payload slice has an odd length.
    Timeouts and datagrams shorter than the header leave no trace. *)
Theorem receive_audio_errors nets st :
  running st = true ->
  Forall (fun net => ∀ e, net = Raise e -> is_Exception e = true) nets ->
  ∃ st' es,
    receive_audio nets st = (st', es, Ok tt) ∧
    error_count es =
      length (filter (fun net => Received.failed net = true) nets).
Proof.
  intros Hrun Hnets.
  destruct (receive_audio_account nets st Hrun Hnets)
    as (st' & es & ? & _ & _ & _ & ?). eauto.
Qed.

Lemma receive_audio_errors_witness :
  ∃ st' es,
    receive_audio Examples.session Examples.unbound_server = (st', es, Ok tt) ∧
    error_count es =
      length (filter (fun net => Received.failed net = true) Examples.session).
Proof.
  apply (receive_audio_errors Examples.session Examples.unbound_server).
  - reflexivity.
  - repeat constructor; intros e H; try discriminate H; by injection H as <-.
Defined.

End receive_accounting.

(** ** The send loop, effect by effect *)

Section send_trace.

Import struct ESP32AudioServer.

(** The effects of the turns that go through. *)
Lemma send_chunks_prefix samples clock addr m : ∀ j0 ps rest st,
  client_address st = Some addr ->
  Ok <$> ps = nth_packet samples clock <$> seq j0 m ->
  send_chunks samples clock (((λ j, j * 320)%nat <$> seq j0 m) ++ rest)
    j0 (Z.of_nat j0) st =
    (let '(st2, es2, r) :=
       send_chunks samples clock rest (j0 + m) (Z.of_nat (j0 + m)) st in
     (st2, flat_map (fun p => [sendto p addr; sleep 0.018]) ps ++ es2, r)).
Proof.
  induction m as [|m IH]; intros j0 ps rest st Hbound Hps.
  - destruct ps; [|done]. rewrite Nat.add_0_r. cbn [seq fmap list_fmap app].
    by destruct (send_chunks _ _ _ _ _ _) as [[??]?].
  - destruct ps as [|p ps]; [done|].
    cbn [seq] in Hps. rewrite !fmap_cons in Hps.
    injection Hps as Hp Hps.
    cbn [seq fmap list_fmap app]. rewrite send_chunks_cons.
    unfold nth_packet in Hp. rewrite <- Hp.
    rewrite run_bind, (run_sock_sendto _ _ _ Hbound).
    autorewrite with prog.
    replace (Z.of_nat j0 + 1) with (Z.of_nat (S j0)) by lia.
    rewrite (IH (S j0) ps rest st Hbound Hps).
    replace (S j0 + m)%nat with (j0 + S m)%nat by lia.
    by destruct (send_chunks _ _ _ _ _ _) as [[??]?].
Qed.

Lemma send_chunks_from_start samples clock addr m ps rest st :
  client_address st = Some addr ->
  Ok <$> ps = nth_packet samples clock <$> seq 0 m ->
  send_chunks samples clock (((λ j, j * 320)%nat <$> seq 0 m) ++ rest) 0 0 st =
    (let '(st2, es2, r) := send_chunks samples clock rest m (Z.of_nat m) st in
     (st2, flat_map (fun p => [sendto p addr; sleep 0.018]) ps ++ es2, r)).
Proof. apply (send_chunks_prefix samples clock addr m 0%nat). Qed.

(** The packets of the turns whose header fits. *)
Lemma nth_packets_exist samples clock k :
  Z.of_nat k <= 65536 ->
  (∀ j, (j < k)%nat -> fits_uint32 (clock j)) ->
  ∃ ps, Ok <$> ps = nth_packet samples clock <$> seq 0 k.
Proof.
  induction k as [|k IH]; intros Hk Hclock.
  - by exists [].
  - destruct IH as [ps Hps]; [lia | intros j Hj; apply Hclock; lia |].
    destruct (Hclock k) as (ts & Hstamp & Hts); [lia|].
    destruct (nth_packet_in_range samples clock k ts) as (p & Hp & _);
      [done | done | lia |].
    exists (ps ++ [p]).
    rewrite seq_S, !fmap_app, Hps. cbn. by rewrite Hp.
Qed.

Context {F : Type} (scale_int16 : F -> Z).

(** X5.  With a client bound, no more than 65536 chunks and timestamps
    that fit, [send_audio] logs the sample count and then, for each chunk
    in order, hands its packet to the socket for the bound client and
    sleeps 18 ms; it does nothing else, and an empty waveform sends
    nothing.  The packet of chunk [j] carries the timestamp
    [int(time.time() * 1000)] of the [j]-th reading, with the product
    rounded as a float product, the sequence number [j] and the [j]-th
    padded chunk. *)
Theorem send_audio_trace audio clock st addr :
  let samples := to_int16 scale_int16 audio in
  let n := ((length samples + 319) / 320)%nat in
  client_address st = Some addr ->
  Z.of_nat n <= 65536 ->
  (∀ k, (k < n)%nat -> fits_uint32 (clock k)) ->
  ∃ ps,
    Ok <$> ps = nth_packet samples clock <$> seq 0 n ∧
    send_audio scale_int16 audio clock st =
      (st,
       log INFO (sending_samples (length samples))
         :: flat_map (fun p => [sendto p addr; sleep 0.018]) ps,
       Ok tt).
Proof.
  intros samples n Hbound Hn Hclock.
  destruct (nth_packets_exist samples clock n Hn Hclock) as [ps Hps].
  exists ps. split; [done|].
  unfold send_audio. autorewrite with prog. rewrite Hbound.
  autorewrite with prog. fold samples. rewrite range_chunks. fold n.
  rewrite <- (app_nil_r (_ <$> seq 0 n)).
  rewrite (send_chunks_from_start samples clock addr n ps [] st Hbound Hps).
  cbn [send_chunks]. autorewrite with prog. by rewrite app_nil_r.
Qed.

(** X6.  A reply can be cut short.  When chunk [k] is the first whose
    header cannot be packed (its timestamp [int(time.time() * 1000)],
    taken from the rounded float product, does not fit 32 bits, or its
    sequence number is 65536), the [k] chunks before it have been sent as
    usual, [struct.error] is raised, and the rest of the waveform is never
    sent. *)
Theorem send_audio_cut_short audio clock st addr k ts :
  let samples := to_int16 scale_int16 audio in
  let n := ((length samples + 319) / 320)%nat in
  client_address st = Some addr ->
  (k < n)%nat ->
  Z.of_nat k <= 65536 ->
  (∀ j, (j < k)%nat -> fits_uint32 (clock j)) ->
  timestamp_ms (clock k) = Ok ts ->
  ¬ (0 <= ts < 2 ^ 32) ∨ Z.of_nat k = 65536 ->
  ∃ ps,
    Ok <$> ps = nth_packet samples clock <$> seq 0 k ∧
    send_audio scale_int16 audio clock st =
      (st,
       log INFO (sending_samples (length samples))
         :: flat_map (fun p => [sendto p addr; sleep 0.018]) ps,
       Raise struct_error).
Proof.
  intros samples n Hbound Hk Hk' Hclock Hstamp Hfail.
  destruct (nth_packets_exist samples clock k Hk' Hclock) as [ps Hps].
  exists ps. split; [done|].
  assert (build_packet ts (Z.of_nat k)
            (padded_chunk samples (k * 320)) = Raise struct_error) as Hraise.
  { destruct (build_packet _ _ _) as [p|e] eqn:Hbuild;
      [exfalso | f_equal; by eapply build_packet_raises].
    unfold build_packet, frame in Hbuild.
    destruct (pack_IHH _ _ _) as [h|e] eqn:Hpack; [|done].
    apply pack_IHH_inv in Hpack as [(Hts & Hsq & _) _]. lia. }
  unfold send_audio. autorewrite with prog. rewrite Hbound.
  autorewrite with prog. fold samples. rewrite range_chunks. fold n.
  replace n with (k + S (n - S k))%nat by lia.
  rewrite seq_app, fmap_app. cbn [seq fmap list_fmap Nat.add].
  rewrite (send_chunks_from_start samples clock addr k ps _ st Hbound Hps).
  cbn [Nat.add]. rewrite send_chunks_cons, Hstamp.
  cbn [mbind result_bind]. rewrite Hraise.
  by rewrite app_nil_r.
Qed.

End send_trace.

Section send_trace_examples.

Import struct ESP32AudioServer.

Lemma send_audio_trace_witness :
  ∃ ps,
    Ok <$> ps =
      nth_packet (to_int16 Examples.scale Examples.waveform_700)
        Examples.early_clock <$> seq 0 3 ∧
    send_audio Examples.scale Examples.waveform_700 Examples.early_clock
      Examples.bound_server =
      (Examples.bound_server,
       log INFO (sending_samples 700)
         :: flat_map (fun p => [sendto p Examples.peer; sleep 0.018]) ps,
       Ok tt).
Proof.
  apply (send_audio_trace Examples.scale Examples.waveform_700
           Examples.early_clock Examples.bound_server Examples.peer).
  - reflexivity.
  - by vm_compute.
  - intros k _. exists 1000; split; [vm_compute; reflexivity | lia].
Defined.

Lemma send_audio_cut_short_witness :
  ∃ ps,
    Ok <$> ps =
      nth_packet (to_int16 Examples.scale Examples.waveform_700)
        Examples.failing_clock <$> seq 0 1 ∧
    send_audio Examples.scale Examples.waveform_700 Examples.failing_clock
      Examples.bound_server =
      (Examples.bound_server,
       log INFO (sending_samples 700)
         :: flat_map (fun p => [sendto p Examples.peer; sleep 0.018]) ps,
       Raise struct_error).
Proof.
  apply (send_audio_cut_short Examples.scale Examples.waveform_700
           Examples.failing_clock Examples.bound_server Examples.peer 1
           5000000000).
  - reflexivity.
  - vm_compute. lia.
  - by vm_compute.
  - intros j Hj. destruct j; [exists 1000; split; [vm_compute; reflexivity | lia] | lia].
  - vm_compute. reflexivity.
  - left. intros [_ H]. vm_compute in H. discriminate H.
Defined.

End send_trace_examples.

(** ** What the receiver of a reply can rebuild *)

Section reassembly.

Import struct ESP32AudioServer.

Lemma int16_of_bytes_le_split x :
  -32768 <= x < 32768 ->
  np.int16_pairs (le_split 2 x) = [x].
Proof.
  intros Hx.
  pose proof (le_combine_split 2 x) as Hcombine.
  change (le_split 2 x) with [byte.of_Z x; byte.of_Z (Z.shiftr x 8)] in *.
  cbn [np.int16_pairs]. f_equal.
  unfold np.int16_of_bytes. rewrite Hcombine.
  change (Z.of_nat 2 * 8) with 16.
  destruct (decide (0 <= x)) as [Hpos|Hneg].
  - rewrite Z.mod_small by lia.
    destruct (x <? 32768) eqn:Hlt; [done|]. apply Z.ltb_ge in Hlt. lia.
  - replace (x mod 2 ^ 16) with (x + 65536).
    + destruct (x + 65536 <? 32768) eqn:Hlt; [|lia].
      apply Z.ltb_lt in Hlt. lia.
    + apply (Z.mod_unique _ _ (-1)); lia.
Qed.

(** [np.frombuffer(a.tobytes(), dtype=np.int16)] is [a] for an int16
    array. *)
Lemma int16_pairs_tobytes a :
  Forall (fun x => -32768 <= x < 32768) a ->
  np.int16_pairs (np.tobytes a) = a.
Proof.
  induction 1 as [|x a Hx _ IH]; [done|].
  unfold np.tobytes in *. cbn [flat_map].
  pose proof (int16_of_bytes_le_split x Hx) as Hone.
  change (le_split 2 x) with [byte.of_Z x; byte.of_Z (Z.shiftr x 8)] in *.
  cbn [app np.int16_pairs] in *. rewrite IH. by injection Hone as ->.
Qed.

Lemma audio_data_build_packet ts sq chunk p :
  build_packet ts sq chunk = Ok p -> audio_data p = np.tobytes chunk.
Proof.
  intros [Hparse Hlen]%parse_build_packet.
  destruct (parse_packet_audio_data p) as (ts' & sq' & Hparse'); [lia|].
  congruence.
Qed.

Lemma padded_chunk_range samples i :
  Forall (fun x => -32768 <= x < 32768) samples ->
  Forall (fun x => -32768 <= x < 32768) (padded_chunk samples i).
Proof.
  intros Hrange. unfold padded_chunk, np.pad, slice.
  assert (Forall (fun x => -32768 <= x < 32768)
            (take (i + 320 - i) (drop i samples))) as Hslice.
  { by apply Forall_take, Forall_drop. }
  destruct (_ <? _)%nat; [|done].
  apply Forall_app. split; [done|]. by apply Forall_replicate.
Qed.

Lemma padded_chunk_0 l :
  padded_chunk l 0 =
    take 320 l ++ replicate (320 - length (take 320 l)) 0.
Proof.
  unfold padded_chunk, np.pad, slice.
  change (0 + 320 - 0)%nat with 320%nat. rewrite drop_0.
  destruct (_ <? _)%nat eqn:Hlt; [done|].
  apply Nat.ltb_ge in Hlt.
  replace (320 - length (take 320 l))%nat with 0%nat by lia.
  by rewrite app_nil_r.
Qed.

Lemma padded_chunk_drop l j :
  padded_chunk l (S j * 320) = padded_chunk (drop 320 l) (j * 320).
Proof.
  unfold padded_chunk, slice. rewrite drop_drop.
  replace (320 + j * 320)%nat with (S j * 320)%nat by lia.
  by replace (S j * 320 + 320 - S j * 320)%nat
    with (j * 320 + 320 - j * 320)%nat by lia.
Qed.

(** The padded chunks, one after the other, are the waveform followed by
    the padding. *)
Lemma padded_chunks_concat n : ∀ l,
  (length l <= 320 * n)%nat ->
  concat ((fun j => padded_chunk l (j * 320)) <$> seq 0 n) =
    l ++ replicate (320 * n - length l) 0.
Proof.
  induction n as [|n IH]; intros l Hlen.
  - destruct l; [done | cbn in Hlen; lia].
  - cbn [seq fmap list_fmap concat]. rewrite <- fmap_S_seq, <- list_fmap_compose.
    rewrite (list_fmap_ext _ (fun j => padded_chunk (drop 320 l) (j * 320))
               (seq 0 n))
      by (intros i j _; apply padded_chunk_drop).
    rewrite IH by (rewrite length_drop; lia).
    change (0 * 320)%nat with 0%nat. rewrite padded_chunk_0.
    rewrite length_take, length_drop.
    destruct (decide (length l <= 320)%nat) as [Hshort|Hlong].
    + rewrite take_ge, drop_ge by lia. cbn [app].
      rewrite <- app_assoc. f_equal. rewrite <- replicate_add. f_equal. lia.
    + replace (320 - 320 `min` length l)%nat with 0%nat by lia.
      cbn [replicate]. rewrite app_nil_r, app_assoc, take_drop.
      f_equal. f_equal. lia.
Qed.

Context {F : Type} (scale_int16 : F -> Z).

(** X7.  What is sent is the waveform itself.  When every sample is a
    signed 16-bit value (and the headers can be packed), reading the
    payload of each packet sent as int16 values, the way [receive_audio]
    reads a payload, and joining the results in order gives back the
    waveform, followed by the zeros that pad the last chunk to 320
    samples. *)
Theorem sent_payloads_rebuild_waveform audio clock st addr :
  let samples := to_int16 scale_int16 audio in
  let n := ((length samples + 319) / 320)%nat in
  client_address st = Some addr ->
  Z.of_nat n <= 65536 ->
  (∀ k, (k < n)%nat -> fits_uint32 (clock k)) ->
  Forall (fun x => -32768 <= x < 32768) samples ->
  ∃ es,
    send_audio scale_int16 audio clock st = (st, es, Ok tt) ∧
    concat ((fun p => np.int16_pairs (audio_data p)) <$> packets_sent es) =
      samples ++ replicate (320 * n - length samples) 0.
Proof.
  intros samples n Hbound Hn Hclock Hrange.
  destruct (nth_packets_exist samples clock n Hn Hclock) as [ps Hps].
  assert (send_audio scale_int16 audio clock st =
            (st, log INFO (sending_samples (length samples))
                   :: flat_map (fun p => [sendto p addr; sleep 0.018]) ps,
             Ok tt)) as Hrun.
  { unfold send_audio. autorewrite with prog. rewrite Hbound.
    autorewrite with prog. fold samples. rewrite range_chunks. fold n.
    rewrite <- (app_nil_r (_ <$> seq 0 n)).
    rewrite (send_chunks_from_start samples clock addr n ps [] st Hbound Hps).
    cbn [send_chunks]. autorewrite with prog. by rewrite app_nil_r. }
  eexists. split; [exact Hrun|].
  assert (∀ qs, packets_sent
            (flat_map (fun p => [sendto p addr; sleep 0.018]) qs) = qs) as Hsent.
  { induction qs as [|q qs IH]; [done|]. cbn. f_equal. exact IH. }
  change (packets_sent (log INFO (sending_samples (length samples)) :: ?es))
    with (packets_sent es). rewrite Hsent.
  assert ((fun p => np.int16_pairs (audio_data p)) <$> ps =
          (fun j => padded_chunk samples (j * 320)) <$> seq 0 n) as ->.
  { clear Hrun. revert ps Hps. generalize (seq 0 n).
    induction l as [|j l IH]; intros [|p ps] Hps; try done.
    rewrite !fmap_cons in Hps. injection Hps as Hp Hps.
    rewrite !fmap_cons. f_equal; [|by apply IH].
    symmetry in Hp. unfold nth_packet in Hp.
    destruct (timestamp_ms (clock j)) as [ts|e]; [|done].
    cbn [mbind result_bind] in Hp.
    apply audio_data_build_packet in Hp as ->.
    by apply int16_pairs_tobytes, padded_chunk_range. }
  apply padded_chunks_concat.
  pose proof (Nat.div_mod_eq (length samples + 319) 320) as Hdiv.
  pose proof (Nat.mod_upper_bound (length samples + 319) 320 ltac:(lia)).
  fold n in Hdiv. lia.
Qed.

End reassembly.

Section reassembly_examples.

Import struct ESP32AudioServer.

Lemma sent_payloads_rebuild_waveform_witness :
  ∃ es,
    send_audio Examples.scale Examples.waveform_700 Examples.early_clock
      Examples.bound_server = (Examples.bound_server, es, Ok tt) ∧
    concat ((fun p => np.int16_pairs (audio_data p)) <$> packets_sent es) =
      to_int16 Examples.scale Examples.waveform_700
        ++ replicate (320 * 3 - 700) 0.
Proof.
  apply (sent_payloads_rebuild_waveform Examples.scale Examples.waveform_700
           Examples.early_clock Examples.bound_server Examples.peer).
  - reflexivity.
  - by vm_compute.
  - intros k _. exists 1000; split; [vm_compute; reflexivity | lia].
  - apply Forall_replicate. lia.
Defined.

End reassembly_examples.

(** ** The segmentation loop, turn by turn *)

Section segmentation_turns.

Import HowdyTTSESP32Integration Segmentation.

Context {F : Type} (scale_int16 : F -> Z).
Variable transcribe : list Q -> result string.
Variable text_to_speech : string -> list F.
Variable self : t.

Let iteration := process_iteration scale_int16 transcribe text_to_speech self.
Let loop := process_loop scale_int16 transcribe text_to_speech self.

(** The reply, by what the transcriber returns. *)
Lemma reply_run env audio_array (st : locals) :
  reply scale_int16 transcribe text_to_speech env audio_array st =
    match transcribe audio_array with
    | Raise e => (st, [transcribe_call audio_array], Raise e)
    | Ok text =>
        if negb (String.eqb text "") then
          let '(_, es, r) :=
            ESP32AudioServer.send_audio scale_int16
              (np.other_array (text_to_speech (process_query text)))
              (clock env) (audio_server env) in
          (st,
           [transcribe_call audio_array; log INFO (transcribed text);
            log INFO (response (process_query text))] ++ es,
           r)
        else
          (st, [transcribe_call audio_array; log INFO no_speech_detected],
           Ok tt)
    end.
Proof.
  unfold reply. rewrite run_emit_bind, run_lift_bind.
  destruct (transcribe audio_array) as [text|e]; [|done].
  destruct (negb (String.eqb text "")).
  - autorewrite with prog. unfold on_object.
    by destruct (ESP32AudioServer.send_audio _ _ _ _) as [[??]?].
  - by autorewrite with prog.
Qed.

(** The poll that hands the buffer on, by how the reply ends. *)
Lemma finalizing_step env st :
  finalizes self env st ->
  iteration env st =
    (let '(_, es, r) :=
       reply scale_int16 transcribe text_to_speech env
         (normalized (audio_buffer st)) (set_processing true st) in
     let started :=
       log INFO (processing_audio (duration self (audio_buffer st))) :: es in
     match r with
     | Ok _ => (cleared st, started, Ok next)
     | Raise e =>
         if is_Exception e
         then (cleared st, started ++ [log ERROR (error_processing e)],
               Ok next)
         else (set_processing true st, started, Raise e)
     end).
Proof.
  intros (Hget & Hbuf & Hidle & Hgap%Qltb_true & Hlong%Qltb_false).
  unfold iteration. rewrite poll_step by done.
  unfold on_empty. autorewrite with prog. rewrite Hgap, Hidle, Hlong.
  destruct (audio_buffer st) as [|x buffer] eqn:Hb; [done|].
  cbn [length Nat.eqb negb andb].
  autorewrite with prog. rewrite run_bind. unfold try_except.
  rewrite reply_run.
  destruct (transcribe _) as [text|e].
  - destruct (negb (String.eqb text "")).
    + destruct (ESP32AudioServer.send_audio _ _ _ _) as [[? es] [[]|e]].
      * autorewrite with prog. by rewrite app_nil_r.
      * destruct (is_Exception e); [|done].
        autorewrite with prog. by rewrite app_nil_r.
    + autorewrite with prog. by rewrite app_nil_r.
  - destruct (is_Exception e); [|done].
    autorewrite with prog. by rewrite app_nil_r.
Qed.

(** X8.  Without a gap there is no utterance.  As long as every turn is a
    frame, or a poll that sees no more than the threshold of silence since
    the frame before it, nothing is handed to the transcriber however much
    audio has come in: the samples only pile up in the buffer. *)
Theorem no_gap_no_utterance start envs :
  quiet self start envs ->
  process_audio_stream scale_int16 transcribe text_to_speech self start envs =
    (mk_locals (samples_of envs) (last_frame_time start envs) false,
     [log INFO starting_loop], Ok tt).
Proof.
  intros Hquiet. unfold process_audio_stream. rewrite run_emit_bind.
  pose proof (quiet_run scale_int16 transcribe text_to_speech self envs
                (mk_locals [] start false) [] eq_refl Hquiet) as Hrun.
  rewrite app_nil_r in Hrun. by rewrite Hrun.
Qed.

(** X9.  A [KeyboardInterrupt] that reaches [queue.get] ends the loop
    cleanly: "Shutting down..." is logged, nothing is raised, the locals
    are left as they were (a buffered utterance is dropped unprocessed),
    and no later turn is looked at. *)
Theorem keyboard_interrupt_shuts_down env rest st :
  get env = Raise KeyboardInterrupt ->
  loop (env :: rest) st = (st, [log INFO shutting_down], Ok tt).
Proof.
  intros Hget. unfold loop. cbn [process_loop].
  rewrite run_bind. unfold process_iteration, try_except.
  rewrite run_lift_bind, Hget. by autorewrite with prog.
Qed.

(** X10.  Any other exception of [queue.get] is logged as unexpected and
    survived: the buffer, the silence clock and the flag are untouched and
    the loop goes on with the next turn. *)
Theorem unexpected_error_survived env rest st e :
  get env = Raise e ->
  is_Exception e = true ->
  e ≠ queue_Empty ->
  loop (env :: rest) st =
    (let '(st2, es2, r) := loop rest st in
     (st2, log ERROR (unexpected_error e) :: es2, r)).
Proof.
  intros Hget Hexn Hne.
  assert (iteration env st =
            (st, [log ERROR (unexpected_error e)], Ok next)) as Hit.
  { unfold iteration, process_iteration, try_except.
    rewrite run_lift_bind, Hget.
    destruct e; try done; by autorewrite with prog. }
  by rewrite (loop_cons scale_int16 transcribe text_to_speech self
                _ _ _ _ _ Hit).
Qed.

(** X11.  When the transcriber fails with an ordinary exception the
    utterance is abandoned: the error is logged, nothing is sent, the
    buffer is emptied and the loop goes on. *)
Theorem transcriber_failure_abandons_utterance env st e :
  finalizes self env st ->
  transcribe (normalized (audio_buffer st)) = Raise e ->
  is_Exception e = true ->
  iteration env st =
    (cleared st,
     [log INFO (processing_audio (duration self (audio_buffer st)));
      transcribe_call (normalized (audio_buffer st));
      log ERROR (error_processing e)],
     Ok next).
Proof.
  intros Hfin Htext Hexn.
  by rewrite finalizing_step, reply_run, Htext, Hexn.
Qed.

(** X12.  A [KeyboardInterrupt] raised while the utterance is being
    transcribed is not caught by the loop: it is raised inside the
    [except queue.Empty] handler, out of reach of the sibling
    [except KeyboardInterrupt].  The loop ends by raising, without the
    shutdown message, with the buffer still full and the flag set. *)
Theorem interrupt_during_reply_escapes env rest st :
  finalizes self env st ->
  transcribe (normalized (audio_buffer st)) = Raise KeyboardInterrupt ->
  loop (env :: rest) st =
    (set_processing true st,
     [log INFO (processing_audio (duration self (audio_buffer st)));
      transcribe_call (normalized (audio_buffer st))],
     Raise KeyboardInterrupt).
Proof.
  intros Hfin Htext. unfold loop. cbn [process_loop]. rewrite run_bind.
  fold iteration. by rewrite finalizing_step, reply_run, Htext.
Qed.

(** X13.  When the transcriber returns a text that is not empty, the turn
    logs it, logs the answer ["You said: " + text], and runs [send_audio]
    on the synthesized answer with the audio server and clock of the
    moment: the effects of the turn are those of [send_audio] in between.
    If [send_audio] raises, the error is logged; either way the buffer is
    emptied and the loop goes on. *)
Theorem reply_follows_transcription env st text :
  finalizes self env st ->
  transcribe (normalized (audio_buffer st)) = Ok text ->
  text ≠ ""%string ->
  iteration env st =
    (let '(_, es, r) :=
       ESP32AudioServer.send_audio scale_int16
         (np.other_array (text_to_speech (process_query text)))
         (clock env) (audio_server env) in
     (cleared st,
      [log INFO (processing_audio (duration self (audio_buffer st)));
       transcribe_call (normalized (audio_buffer st));
       log INFO (transcribed text);
       log INFO (response ("You said: " ++ text))]
        ++ es
        ++ match r with
           | Ok _ => []
           | Raise e => [log ERROR (error_processing e)]
           end,
      Ok next)).
Proof.
  intros Hfin Htext Hne%String.eqb_neq.
  rewrite finalizing_step, reply_run, Htext, Hne by done. cbn [negb].
  destruct (send_audio_any scale_int16
              (np.other_array (text_to_speech (process_query text)))
              (clock env) (audio_server env)) as (es & r & -> & _ & Hr).
  destruct r as [[]|e].
  - by rewrite app_nil_r.
  - rewrite (Hr e eq_refl). by cbn.
Qed.

(** X14.  When the transcriber returns the empty text, nothing is sent:
    "No speech detected" is logged and the buffer is emptied. *)
Theorem silence_transcribed_no_reply env st :
  finalizes self env st ->
  transcribe (normalized (audio_buffer st)) = Ok ""%string ->
  iteration env st =
    (cleared st,
     [log INFO (processing_audio (duration self (audio_buffer st)));
      transcribe_call (normalized (audio_buffer st));
      log INFO no_speech_detected],
     Ok next).
Proof.
  intros Hfin Htext. by rewrite finalizing_step, reply_run, Htext.
Qed.

Lemma iteration_keeps_flag env st st1 es f :
  processing st = false ->
  iteration env st = (st1, es, Ok f) ->
  processing st1 = false.
Proof.
  intros Hidle. unfold iteration, process_iteration, try_except.
  rewrite run_lift_bind. destruct (get env) as [chunk|e].
  - autorewrite with prog. by intros [= <- _ _].
  - destruct e; cbn [is_Exception]; autorewrite with prog;
      try (by intros [= <- _ _]).
    unfold on_empty. autorewrite with prog.
    destruct (_ && _ && _); [|autorewrite with prog; by intros [= <- _ _]].
    destruct (Qltb _ (min_audio_length self));
      [autorewrite with prog; by intros [= <- _ _]|].
    autorewrite with prog. rewrite run_bind. unfold try_except.
    rewrite reply_run.
    destruct (transcribe _) as [text|e].
    + destruct (negb (String.eqb text "")).
      * destruct (ESP32AudioServer.send_audio _ _ _ _) as [[? es'] [[]|e]].
        -- autorewrite with prog. by intros [= <- _ _].
        -- destruct (is_Exception e); [|done].
           autorewrite with prog. by intros [= <- _ _].
      * autorewrite with prog. by intros [= <- _ _].
    + destruct (is_Exception e); [|done].
      autorewrite with prog. by intros [= <- _ _].
Qed.

(** X15.  The [processing] flag is clear at the head of every turn: a run
    of the loop that starts with it clear and ends without raising leaves
    it clear, so the [not processing] test of the silence check never
    holds a finalization back. *)
Theorem processing_flag_clear envs : ∀ st st' es,
  processing st = false ->
  loop envs st = (st', es, Ok tt) ->
  processing st' = false.
Proof.
  induction envs as [|env envs IH]; intros st st' es Hidle.
  - by intros [= <- _].
  - unfold loop. cbn [process_loop]. rewrite run_bind. fold iteration.
    destruct (iteration env st) as [[st1 es1] [f|e]] eqn:Hit; [|done].
    pose proof (iteration_keeps_flag _ _ _ _ _ Hidle Hit) as Hidle1.
    destruct f.
    + fold loop. destruct (loop envs st1) as [[st2 es2] r] eqn:Hloop.
      intros [= <- _ ->]. by eapply IH.
    + autorewrite with prog. by intros [= <- _].
Qed.

End segmentation_turns.

Section segmentation_turn_examples.

Import HowdyTTSESP32Integration Segmentation.

(** A poll 600 ms after the last of 9000 buffered samples hands them on. *)
Local Ltac full_buffer_finalizes :=
  unfold finalizes; cbn [get now Examples.poll Examples.full_buffer
    audio_buffer last_audio_time processing];
  split; [reflexivity|];
  split; [intros Hnil; apply (f_equal length) in Hnil;
          vm_compute in Hnil; discriminate Hnil|];
  split; [reflexivity|];
  split; by vm_compute.

Lemma no_gap_no_utterance_witness :
  process_audio_stream Examples.scale Examples.deaf_transcribe
    Examples.mute_text_to_speech defaults 9.9 Examples.steady_frames =
    (mk_locals (samples_of Examples.steady_frames)
       (last_frame_time 9.9 Examples.steady_frames) false,
     [log INFO starting_loop], Ok tt).
Proof.
  apply (no_gap_no_utterance Examples.scale Examples.deaf_transcribe
           Examples.mute_text_to_speech defaults 9.9 Examples.steady_frames).
  cbn. split; [by vm_compute | exact I].
Defined.

Lemma keyboard_interrupt_shuts_down_witness :
  process_loop Examples.scale Examples.deaf_transcribe
    Examples.mute_text_to_speech defaults
    [Examples.interrupted_get 10.5; Examples.poll 11.2] Examples.full_buffer =
    (Examples.full_buffer, [log INFO shutting_down], Ok tt).
Proof.
  apply (keyboard_interrupt_shuts_down Examples.scale Examples.deaf_transcribe
           Examples.mute_text_to_speech defaults
           (Examples.interrupted_get 10.5) [Examples.poll 11.2]
           Examples.full_buffer).
  reflexivity.
Defined.

Lemma unexpected_error_survived_witness :
  process_loop Examples.scale Examples.deaf_transcribe
    Examples.mute_text_to_speech defaults
    [Examples.failing_get 10.5; Examples.burst 160 2 10.52]
    Examples.full_buffer =
    (let '(st2, es2, r) :=
       process_loop Examples.scale Examples.deaf_transcribe
         Examples.mute_text_to_speech defaults [Examples.burst 160 2 10.52]
         Examples.full_buffer in
     (st2, log ERROR (unexpected_error OSError) :: es2, r)).
Proof.
  apply (unexpected_error_survived Examples.scale Examples.deaf_transcribe
           Examples.mute_text_to_speech defaults
           (Examples.failing_get 10.5) [Examples.burst 160 2 10.52]
           Examples.full_buffer OSError);
    [reflexivity | reflexivity | discriminate].
Defined.

Lemma transcriber_failure_abandons_utterance_witness :
  process_iteration Examples.scale Examples.failing_transcribe
    Examples.mute_text_to_speech defaults (Examples.poll 10.6)
    Examples.full_buffer =
    (cleared Examples.full_buffer,
     [log INFO (processing_audio
                  (duration defaults (audio_buffer Examples.full_buffer)));
      transcribe_call (normalized (audio_buffer Examples.full_buffer));
      log ERROR (error_processing ValueError)],
     Ok next).
Proof.
  apply (transcriber_failure_abandons_utterance Examples.scale
           Examples.failing_transcribe Examples.mute_text_to_speech defaults
           (Examples.poll 10.6) Examples.full_buffer ValueError);
    [full_buffer_finalizes | reflexivity | reflexivity].
Defined.

Lemma interrupt_during_reply_escapes_witness :
  process_loop Examples.scale Examples.interrupted_transcribe
    Examples.mute_text_to_speech defaults
    [Examples.poll 10.6; Examples.burst 160 2 10.7] Examples.full_buffer =
    (set_processing true Examples.full_buffer,
     [log INFO (processing_audio
                  (duration defaults (audio_buffer Examples.full_buffer)));
      transcribe_call (normalized (audio_buffer Examples.full_buffer))],
     Raise KeyboardInterrupt).
Proof.
  apply (interrupt_during_reply_escapes Examples.scale
           Examples.interrupted_transcribe Examples.mute_text_to_speech
           defaults (Examples.poll 10.6) [Examples.burst 160 2 10.7]
           Examples.full_buffer);
    [full_buffer_finalizes | reflexivity].
Defined.

Lemma reply_follows_transcription_witness :
  process_iteration Examples.scale Examples.hearing_transcribe
    Examples.tone_text_to_speech defaults (Examples.poll 10.6)
    Examples.full_buffer =
    (let '(_, es, r) :=
       ESP32AudioServer.send_audio Examples.scale
         (np.other_array (Examples.tone_text_to_speech
                            (process_query "hello")))
         (clock (Examples.poll 10.6)) (audio_server (Examples.poll 10.6)) in
     (cleared Examples.full_buffer,
      [log INFO (processing_audio
                   (duration defaults (audio_buffer Examples.full_buffer)));
       transcribe_call (normalized (audio_buffer Examples.full_buffer));
       log INFO (transcribed "hello");
       log INFO (response ("You said: " ++ "hello"))]
        ++ es
        ++ match r with
           | Ok _ => []
           | Raise e => [log ERROR (error_processing e)]
           end,
      Ok next)).
Proof.
  apply (reply_follows_transcription Examples.scale
           Examples.hearing_transcribe Examples.tone_text_to_speech defaults
           (Examples.poll 10.6) Examples.full_buffer "hello");
    [full_buffer_finalizes | reflexivity | discriminate].
Defined.

Lemma silence_transcribed_no_reply_witness :
  process_iteration Examples.scale Examples.deaf_transcribe
    Examples.mute_text_to_speech defaults (Examples.poll 10.6)
    Examples.full_buffer =
    (cleared Examples.full_buffer,
     [log INFO (processing_audio
                  (duration defaults (audio_buffer Examples.full_buffer)));
      transcribe_call (normalized (audio_buffer Examples.full_buffer));
      log INFO no_speech_detected],
     Ok next).
Proof.
  apply (silence_transcribed_no_reply Examples.scale Examples.deaf_transcribe
           Examples.mute_text_to_speech defaults (Examples.poll 10.6)
           Examples.full_buffer);
    [full_buffer_finalizes | reflexivity].
Defined.

Lemma processing_flag_clear_witness :
  processing
    (process_loop Examples.scale Examples.hearing_transcribe
       Examples.tone_text_to_speech defaults
       (Examples.steady_frames ++ [Examples.poll 10.7])
       (mk_locals [] 9.9 false)).1.1 = false.
Proof.
  apply (processing_flag_clear Examples.scale Examples.hearing_transcribe
           Examples.tone_text_to_speech defaults
           (Examples.steady_frames ++ [Examples.poll 10.7])
           (mk_locals [] 9.9 false) _
           (process_loop Examples.scale Examples.hearing_transcribe
              Examples.tone_text_to_speech defaults
              (Examples.steady_frames ++ [Examples.poll 10.7])
              (mk_locals [] 9.9 false)).1.2);
    [reflexivity | by vm_compute].
Defined.

End segmentation_turn_examples.

(** ** The WebSocket test server, frame by frame *)

Section websocket_frames.

Import HowdyTTSTestServer.

Variable format_value : json -> string.
Variable json_loads : string -> loads_outcome.

Lemma get_default_dict (d : dict) key default :
  get_default (JDict d) key default = Ok (from_option id default (d !! key)).
Proof. done. Qed.

(** The dispatcher only talks: it leaves the server as it found it, and
    what it can raise is [AttributeError] or [TypeError]. *)
Lemma handle_websocket_message_state data info stamp st :
  ∃ es r,
    handle_websocket_message format_value data info stamp st = (st, es, r) ∧
    (∀ e, r = Raise e -> is_Exception e = true).
Proof.
  unfold handle_websocket_message. rewrite run_lift_bind.
  destruct data as [| | | | | |d];
    try (eexists _, _; split; [done|]; by intros ? [= <-]).
  cbn [get].
  repeat (destruct (is_str _ _);
          [repeat (rewrite run_lift_bind, get_default_dict);
           autorewrite with prog;
           try (eexists _, _; split; [done|]; done) |]).
  - destruct (len _) as [n|e] eqn:Hlen.
    + autorewrite with prog. eexists _, _. split; [done|]. done.
    + eexists _, _. split; [done|]. intros ? [= <-].
      destruct (from_option id (JStr "") (d !! "text"));
        cbn in Hlen; by simplify_eq.
  - autorewrite with prog. eexists _, _. split; [done|]. done.
Qed.

Lemma on_message_state ev info st :
  ∃ es r,
    on_message format_value json_loads ev info st = (st, es, r) ∧
    (∀ e, r = Raise e -> is_Exception e = true).
Proof.
  unfold on_message. destruct (msg ev) as [text|data| |].
  - rewrite run_bind. unfold try_except. rewrite run_lift_bind.
    destruct (json_loads text) as [v| | |]; cbn [loads_result].
    + destruct (handle_websocket_message_state v info (timestamp ev) st)
        as (es & r & -> & Hr).
      destruct r as [[]|e].
      * autorewrite with prog. eexists _, _. split; [done|]. done.
      * pose proof (Hr e eq_refl) as Hexn.
        destruct e; try done;
          (eexists _, _; split; [done|]; by intros ? [= <-]).
    + autorewrite with prog. eexists _, _. split; [done|]. done.
    + eexists _, _. split; [done|]. by intros ? [= <-].
    + eexists _, _. split; [done|]. by intros ? [= <-].
  - unfold handle_audio_data. autorewrite with prog.
    eexists _, _. split; [done|]. done.
  - autorewrite with prog. eexists _, _. split; [done|]. done.
  - autorewrite with prog. eexists _, _. split; [done|]. done.
Qed.

(** X16.  Nothing a client sends over the WebSocket changes the server:
    whatever the frames, the message loop ends with the registered
    devices, the sessions and the client list as they were, and it can
    only end normally or with an ordinary exception. *)
Theorem message_loop_leaves_server evs info st :
  ∃ es r,
    message_loop format_value json_loads evs info st = (st, es, r) ∧
    (∀ e, r = Raise e -> is_Exception e = true).
Proof.
  revert st. induction evs as [|ev evs IH]; intros st.
  - exists [], (Ok tt). done.
  - cbn [message_loop]. rewrite run_bind.
    destruct (on_message_state ev info st) as (es1 & r1 & -> & Hr1).
    destruct r1 as [[|]|e].
    + destruct (IH st) as (es & r & -> & Hr).
      eexists _, _. split; [done|]. exact Hr.
    + eexists _, _. split; [done|]. done.
    + eexists _, _. split; [done|]. intros ? [= <-]. by apply Hr1.
Qed.

Lemma remove_first_app_new ws l :
  ws ∉ l -> remove_first ws (l ++ [ws]) = l.
Proof.
  induction l as [|x l IH]; intros Hnew; cbn.
  - by rewrite decide_True.
  - apply not_elem_of_cons in Hnew as [Hne Hnew].
    rewrite decide_False by done. by rewrite IH.
Qed.

(** X17.  A connection comes and goes without a trace.  For a handle that
    is not yet in the client list, and whatever the client sends,
    [websocket_endpoint] never raises and leaves the server exactly as it
    found it; its first effect is the connect log line, whose session id
    counts the clients connected before, and its last is the disconnect
    log line. *)
Theorem websocket_endpoint_round_trip ws peer now stamp evs st :
  ws ∉ websocket_clients st ->
  ∃ middle,
    websocket_endpoint format_value json_loads ws peer now stamp evs st =
      (st,
       logger INFO (client_connected
         (mk_client_info peer stamp
            ("ws_session_" ++ pretty (int now) ++ "_"
               ++ pretty (length (websocket_clients st)))))
         :: middle ++ [logger INFO (client_disconnected peer)],
       Ok tt).
Proof.
  intros Hnew. unfold websocket_endpoint. autorewrite with prog.
  unfold try_finally, try_except.
  set (info := mk_client_info _ _ _).
  destruct (message_loop_leaves_server evs info (append_client ws st))
    as (es & r & -> & Hr).
  assert (remove_client ws (append_client ws st) = st) as Hback.
  { destruct st as [nm devices sessions clients].
    unfold remove_client, append_client. cbn in *.
    by rewrite remove_first_app_new. }
  destruct r as [[]|e].
  - autorewrite with prog. rewrite Hback.
    by eexists (_ :: es).
  - rewrite (Hr e eq_refl). autorewrite with prog. rewrite Hback.
    eexists (_ :: es ++ [_]). cbn. by rewrite <- ?app_assoc.
Qed.

(** X18.  A text frame that parses, but not to an object, ends the message
    loop: [data.get] raises [AttributeError], which only the handler
    around the whole loop catches.  No reply is sent and the frames that
    follow are never handled. *)
Theorem non_object_json_ends_loop ev text v rest info st :
  msg ev = TEXT text ->
  json_loads text = decoded v ->
  (∀ d, v ≠ JDict d) ->
  message_loop format_value json_loads (ev :: rest) info st =
    (st, [], Raise AttributeError).
Proof.
  intros Hmsg Hparse Hobj. cbn [message_loop]. rewrite run_bind.
  unfold on_message. rewrite Hmsg. rewrite run_bind. unfold try_except.
  rewrite run_lift_bind, Hparse. cbn [loads_result].
  unfold handle_websocket_message. rewrite run_lift_bind.
  destruct v; try done. by destruct (Hobj d).
Qed.

(** X19.  An object whose ["type"] is none of the five known ones, or is
    missing, is answered with one ["error"] message that quotes the type
    ([None] when there is none), and with nothing else. *)
Theorem unknown_type_rejected (d : dict) info stamp st :
  (∀ s, s ∈ ["ping"; "text_to_speech"; "voice_start"; "voice_end";
             "echo_test"]%string -> d !! "type" ≠ Some (JStr s)) ->
  handle_websocket_message format_value (JDict d) info stamp st =
    (st,
     [send_str (error_message
        ("Unknown message type: " ++ fstring format_value (d !! "type"))
        stamp)],
     Ok tt).
Proof using format_value.
  clear json_loads. intros Hunknown.
  assert (∀ s, s ∈ ["ping"; "text_to_speech"; "voice_start"; "voice_end";
                    "echo_test"]%string -> is_str (d !! "type") s = false)
    as Hstr.
  { intros s Hs. specialize (Hunknown s Hs). unfold is_str.
    destruct (d !! "type") as [[]|]; try done.
    destruct (String.eqb_spec s0 s) as [->|]; done. }
  unfold handle_websocket_message. rewrite run_lift_bind. cbn [get].
  rewrite !Hstr
    by (rewrite ?elem_of_cons; tauto).
  done.
Qed.

(** X20.  A speech request whose ["text"] has no length (a number, a
    boolean, [null]) is logged and waited for, and then fails with
    [TypeError] before any reply is sent. *)
Theorem speech_request_without_length (d : dict) v info stamp st :
  d !! "type" = Some (JStr "text_to_speech") ->
  d !! "text" = Some v ->
  len v = Raise TypeError ->
  handle_websocket_message format_value (JDict d) info stamp st =
    (st,
     [logger INFO (tts_request v (from_option id (JStr "default")
                                    (d !! "voice")));
      asyncio_sleep 0.5],
     Raise TypeError).
Proof.
  intros Htype Htext Hlen.
  unfold handle_websocket_message. rewrite run_lift_bind. cbn [get].
  rewrite Htype. cbn [is_str String.eqb Ascii.eqb Bool.eqb andb].
  rewrite !run_lift_bind, !get_default_dict, Htext. cbn [from_option id].
  autorewrite with prog. by rewrite Hlen.
Qed.

End websocket_frames.

Section websocket_frame_examples.

Import HowdyTTSTestServer.

Lemma websocket_endpoint_round_trip_witness :
  (1%nat ∉ websocket_clients Examples.test_server) ∧
  ∃ middle,
    websocket_endpoint Examples.format_value Examples.small_json_loads
      1%nat "192.168.1.50" 1762000000.25 "2025-11-03T12:00:00"
      [Examples.broken_text; Examples.list_text; Examples.empty_object_text]
      Examples.test_server =
      (Examples.test_server,
       logger INFO (client_connected
         (mk_client_info "192.168.1.50" "2025-11-03T12:00:00"
            ("ws_session_" ++ pretty (int 1762000000.25) ++ "_"
               ++ pretty (length (websocket_clients Examples.test_server)))))
         :: middle ++ [logger INFO (client_disconnected "192.168.1.50")],
       Ok tt).
Proof.
  assert (1%nat ∉ websocket_clients Examples.test_server) as Hnew.
  { cbn. apply not_elem_of_cons. split; [lia | apply not_elem_of_nil]. }
  split; [exact Hnew|].
  exact (websocket_endpoint_round_trip Examples.format_value
           Examples.small_json_loads 1%nat "192.168.1.50" 1762000000.25
           "2025-11-03T12:00:00"
           [Examples.broken_text; Examples.list_text;
            Examples.empty_object_text]
           Examples.test_server Hnew).
Defined.

Lemma non_object_json_ends_loop_witness :
  msg Examples.list_text = TEXT "[1]" ∧
  Examples.small_json_loads "[1]" = decoded (JList [JInt 1]) ∧
  message_loop Examples.format_value Examples.small_json_loads
    [Examples.list_text; Examples.empty_object_text] Examples.ws_client
    Examples.test_server =
    (Examples.test_server, [], Raise AttributeError).
Proof.
  split; [reflexivity|]. split; [reflexivity|].
  apply (non_object_json_ends_loop Examples.format_value
           Examples.small_json_loads Examples.list_text "[1]"
           (JList [JInt 1])).
  - reflexivity.
  - reflexivity.
  - intros d. discriminate.
Defined.

Lemma unknown_type_rejected_witness :
  Examples.bare_request !! "type" = None ∧
  handle_websocket_message Examples.format_value
    (JDict Examples.bare_request) Examples.ws_client "2025-11-03T12:00:05"
    Examples.test_server =
    (Examples.test_server,
     [send_str (error_message "Unknown message type: None"
                  "2025-11-03T12:00:05")],
     Ok tt).
Proof.
  split; [reflexivity|].
  apply (unknown_type_rejected Examples.format_value Examples.bare_request).
  intros s _. vm_compute. discriminate.
Defined.

Lemma speech_request_without_length_witness :
  len (JInt 5) = Raise TypeError ∧
  handle_websocket_message Examples.format_value
    (JDict Examples.numeric_speech_request) Examples.ws_client
    "2025-11-03T12:00:06" Examples.test_server =
    (Examples.test_server,
     [logger INFO (tts_request (JInt 5) (JStr "default"));
      asyncio_sleep 0.5],
     Raise TypeError).
Proof.
  split; [reflexivity|].
  apply (speech_request_without_length Examples.format_value
           Examples.numeric_speech_request (JInt 5)); reflexivity.
Defined.

End websocket_frame_examples.

(** ** A text that [json.loads] gives up on *)

Section websocket_failure.

Import HowdyTTSTestServer.

(** The inner handler catches [json.JSONDecodeError] only: any other
    exception of [json.loads] leaves the message loop, with no reply and
    with the frames that follow unread. *)
Lemma uncaught_loads_error_ends_loop format_value json_loads
    ev text rest info st e :
  msg ev = TEXT text ->
  loads_result (json_loads text) = Raise e ->
  e ≠ JSONDecodeError ->
  message_loop format_value json_loads (ev :: rest) info st =
    (st, [], Raise e).
Proof.
  intros Hmsg Hraise Hne. cbn [message_loop]. rewrite run_bind.
  unfold on_message. rewrite Hmsg. rewrite run_bind. unfold try_except.
  rewrite run_lift_bind, Hraise. by destruct e.
Qed.

(** C8.  The code on a text that is not JSON and is nested too deep.  A
    client sends 2000 opening brackets and then an empty object.
    [json.loads] raises [RecursionError] on the first frame, which the
    [except json.JSONDecodeError] clause does not catch: the message loop
    ends there.  The endpoint logs the error and disconnects the client;
    the only message it ever sent is the welcome, no error reply, and the
    second frame is never handled. *)
Theorem deep_nesting_ends_connection :
  Examples.small_json_loads Examples.deep_nesting = recursion_error ∧
  message_loop Examples.format_value Examples.small_json_loads
    [Examples.deep_text; Examples.empty_object_text] Examples.ws_client
    Examples.test_server =
    (Examples.test_server, [], Raise RecursionError) ∧
  ∃ connected welcome,
    websocket_endpoint Examples.format_value Examples.small_json_loads
      1%nat "192.168.1.50" 1762000000.25 "2025-11-03T12:00:00"
      [Examples.deep_text; Examples.empty_object_text]
      Examples.test_server =
      (Examples.test_server,
       [logger INFO (client_connected connected);
        send_str welcome;
        logger ERROR (websocket_error RecursionError);
        logger INFO (client_disconnected "192.168.1.50")],
       Ok tt) ∧
    welcome !! "type" = Some (JStr "welcome").
Proof.
  assert (Examples.small_json_loads Examples.deep_nesting = recursion_error)
    as Hdeep by (vm_compute; reflexivity).
  assert (∀ info st,
            message_loop Examples.format_value Examples.small_json_loads
              [Examples.deep_text; Examples.empty_object_text] info st =
              (st, [], Raise RecursionError)) as Hloop.
  { intros info st.
    apply (uncaught_loads_error_ends_loop _ _ _ Examples.deep_nesting);
      [reflexivity | by rewrite Hdeep | discriminate]. }
  split; [exact Hdeep|]. split; [apply Hloop|].
  eexists _, _. split.
  - unfold websocket_endpoint. autorewrite with prog.
    unfold try_finally, try_except. rewrite Hloop.
    cbn [is_Exception]. autorewrite with prog. reflexivity.
  - reflexivity.
Qed.

End websocket_failure.

(** ** The device registry behind [/devices/register] and [/devices] *)

Section device_registry.

Import Stdlib.Strings.Ascii.
Import HowdyTTSTestServer HowdyTTSTestServerHttp.

Variable str : exn -> string.

Lemma key_eq_refl k : hashable k = true -> key_eq k k = true.
Proof.
  destruct k as [|b|n|x|s|l|d]; cbn; try done; intros _.
  - by destruct b.
  - apply Qeq_bool_iff. reflexivity.
  - apply Qeq_bool_iff. reflexivity.
  - apply String.eqb_refl.
Qed.

Lemma key_eq_numbers a b :
  key_eq a b = true ->
  (a = JNull ∧ b = JNull) ∨ (∃ s, a = JStr s ∧ b = JStr s) ∨
  (∃ x y, number a = Some x ∧ number b = Some y ∧ (x == y)%Q).
Proof.
  destruct a, b; cbn; try done; intros H;
    try (by left);
    try (right; left; apply String.eqb_eq in H; subst; by eexists);
    (right; right; eexists _, _; split; [done|]; split; [done|];
     by apply Qeq_bool_iff).
Qed.

(** Equal keys are interchangeable: two keys equal to a third are equal
    to each other. *)
Lemma key_eq_euclid a b c :
  key_eq a b = true -> key_eq a c = true -> key_eq b c = true.
Proof.
  intros Hab Hac.
  destruct (key_eq_numbers _ _ Hab) as [[-> ->]|[(s & -> & ->)|Hn]];
    [done|done|].
  destruct Hn as (x & y & Hx & Hy & Hxy).
  destruct (key_eq_numbers _ _ Hac) as [[-> _]|[(s & -> & _)|Hn]];
    [done|done|].
  destruct Hn as (x' & z & Hx' & Hz & Hxz).
  rewrite Hx in Hx'. injection Hx' as <-.
  assert (Qeq_bool y z = true) as Hyz.
  { apply Qeq_bool_iff. by rewrite <- Hxy, Hxz. }
  destruct b, c; cbn in *; simplify_eq; done.
Qed.

Lemma store_new d k v :
  getitem d k = None -> store d k v = d ++ [(k, v)].
Proof.
  induction d as [|[k0 v0] d IH]; cbn; [done|].
  destruct (key_eq k0 k); [done|]. intros H. by rewrite IH.
Qed.

Lemma store_old d k v old :
  getitem d k = Some old ->
  ∃ pre k0 post,
    d = pre ++ (k0, old) :: post ∧ key_eq k0 k = true ∧
    store d k v = pre ++ (k0, v) :: post.
Proof.
  induction d as [|[k0 v0] d IH]; cbn; [done|].
  destruct (key_eq k0 k) eqn:Hk.
  - intros [= ->]. by exists [], k0, d.
  - intros H. destruct (IH H) as (pre & k1 & post & -> & Hk1 & ->).
    by exists ((k0, v0) :: pre), k1, post.
Qed.

Lemma getitem_store d k v :
  hashable k = true -> getitem (store d k v) k = Some v.
Proof.
  intros Hk. induction d as [|[k0 v0] d IH]; cbn.
  - by rewrite key_eq_refl.
  - destruct (key_eq k0 k) eqn:Hk0; cbn; by rewrite Hk0.
Qed.

Lemma getitem_store_ne d k v k' :
  key_eq k k' = false -> getitem (store d k v) k' = getitem d k'.
Proof.
  intros Hne. induction d as [|[k0 v0] d IH]; cbn.
  - by rewrite Hne.
  - destruct (key_eq k0 k) eqn:Hk0; cbn.
    + destruct (key_eq k0 k') eqn:Hk0'; [|done].
      by rewrite (key_eq_euclid _ _ _ Hk0 Hk0') in Hne.
    + by rewrite IH.
Qed.

Lemma split_nonempty sep s : split sep s ≠ [].
Proof.
  destruct s as [|c s]; cbn; [done|].
  destruct (Ascii.eqb c sep); [done|]. by destruct (split sep s).
Qed.

Lemma join_split sep s : join sep (split sep s) = s.
Proof.
  induction s as [|c s IH]; cbn; [done|].
  destruct (Ascii.eqb_spec c sep) as [->|Hc].
  - pose proof (split_nonempty sep s) as Hne.
    destruct (split sep s) as [|w ws]; [done|].
    cbn [join app] in *. by rewrite IH.
  - pose proof (split_nonempty sep s) as Hne.
    destruct (split sep s) as [|w ws]; [done|].
    destruct ws as [|w' ws]; cbn in *; by rewrite <- IH.
Qed.

Lemma split_no_separator sep s :
  Forall (fun w => contains sep w = false) (split sep s).
Proof.
  induction s as [|c s IH]; cbn [split]; [by repeat constructor|].
  destruct (Ascii.eqb c sep) eqn:Hc; [by constructor|].
  destruct (split sep s) as [|w ws]; [repeat constructor; cbn; by rewrite Hc|].
  apply Forall_cons in IH as [Hw Hws].
  constructor; [cbn; by rewrite Hc, Hw | done].
Qed.

Lemma split_single sep w :
  contains sep w = false -> split sep w = [w].
Proof.
  induction w as [|c w IH]; cbn; [done|].
  intros [Hc Hw]%orb_false_elim. by rewrite Hc, IH.
Qed.

Lemma split_app_separator sep w rest :
  contains sep w = false ->
  split sep (w ++ String sep rest) = w :: split sep rest.
Proof.
  induction w as [|c w IH].
  - intros _. change ("" ++ String sep rest)%string with (String sep rest).
    cbn [split]. by rewrite Ascii.eqb_refl.
  - change (String c w ++ String sep rest)%string
      with (String c (w ++ String sep rest)).
    cbn [split contains].
    intros [Hc Hw]%orb_false_elim. by rewrite Hc, IH.
Qed.

(** The pieces are fixed by the two facts: a non-empty list of texts
    without the separator is what [split] makes of its [join]. *)
Lemma split_join sep pieces :
  pieces ≠ [] ->
  Forall (fun w => contains sep w = false) pieces ->
  split sep (join sep pieces) = pieces.
Proof.
  intros Hne Hpieces. induction Hpieces as [|w ws Hw Hws IH]; [done|].
  destruct ws as [|w' ws]; [by apply split_single|].
  cbn [join]. rewrite split_app_separator by done.
  f_equal. by apply IH.
Qed.

Lemma split_capabilities_raises c e :
  split_capabilities c = Raise e -> e = AttributeError.
Proof.
  unfold split_capabilities. destruct (truthy c); [|done].
  destruct c; by intros [= <-].
Qed.

Lemma setitem_raises d k v e : setitem d k v = Raise e -> e = TypeError.
Proof. unfold setitem. destruct (hashable k); by intros [= <-]. Qed.

(** The handler on an object, branch by branch. *)
Lemma register_run (d : dict) req st :
  request_json req = Ok (JDict d) ->
  register_device_endpoint str req st =
    let device_id := default JNull (d !! "device_id") in
    let device_name := default (JStr "Unknown Device") (d !! "device_name") in
    let capabilities := default (JStr "") (d !! "capabilities") in
    let device_type := default (JStr "unknown") (d !! "device_type") in
    if truthy device_id then
      match split_capabilities capabilities with
      | Ok capability_list =>
          match setitem (registered_devices st) device_id
                  (device_record device_id device_name device_type
                     capability_list req) with
          | Ok devices =>
              (set_registered_devices devices st,
               [logger INFO
                  (device_registered device_id device_name capabilities)],
               Ok (json_response
                     (registered device_id (int (now req)) (length devices)
                        (port st)) 200))
          | Raise e =>
              (st, [logger ERROR (registration_failed e)],
               Ok (json_response (registration_failure str e) 500))
          end
      | Raise e =>
              (st, [logger ERROR (registration_failed e)],
               Ok (json_response (registration_failure str e) 500))
      end
    else
      (st, [],
       Ok (json_response {[ "error" := JStr "device_id is required" ]} 400)).
Proof.
  intros Hbody. unfold register_device_endpoint, try_except.
  rewrite run_lift_bind, Hbody.
  do 4 rewrite run_lift_bind, get_default_dict.
  cbv zeta. destruct (truthy _); cbn [negb]; [|done].
  rewrite run_lift_bind.
  destruct (split_capabilities _) as [cl|e] eqn:Hsplit.
  - rewrite run_gets_bind, run_lift_bind.
    destruct (setitem _ _ _) as [devices|e] eqn:Hset.
    + by autorewrite with prog.
    + by rewrite (setitem_raises _ _ _ _ Hset).
  - by rewrite (split_capabilities_raises _ _ Hsplit).
Qed.

(** X21.  Registration needs a device id that Python takes for true: a
    request object without ["device_id"], or with [null], [false], [0],
    [0.0], the empty string, an empty list or an empty object for it, is
    answered with status 400 and changes nothing; nothing is logged. *)
Theorem registration_needs_device_id (d : dict) req st :
  request_json req = Ok (JDict d) ->
  truthy (default JNull (d !! "device_id")) = false ->
  register_device_endpoint str req st =
    (st, [],
     Ok (json_response {[ "error" := JStr "device_id is required" ]} 400)).
Proof.
  intros Hbody Hid. rewrite (register_run d) by done. cbv zeta.
  by rewrite Hid.
Qed.

(** X22.  Registration is all or nothing and never raises an ordinary
    exception: whatever is posted, the handler returns a response with
    status 200, 400 or 500, and unless the status is 200 the server is
    exactly as before.  The port and the sessions never change. *)
Theorem registration_all_or_nothing req st :
  (∀ e, request_json req = Raise e -> is_Exception e = true) ->
  ∃ st' es resp,
    register_device_endpoint str req st = (st', es, Ok resp) ∧
    port st' = port st ∧
    active_sessions st' = active_sessions st ∧
    (status resp = 200 ∨
     (status resp = 400 ∨ status resp = 500) ∧ st' = st).
Proof.
  intros Hexn. destruct (request_json req) as [data|e] eqn:Hbody.
  - destruct data as [| | | | | |d];
      try (unfold register_device_endpoint, try_except;
           rewrite run_lift_bind, Hbody;
           eexists _, _, _; split; [done|]; cbn; naive_solver).
    rewrite (register_run d) by done. cbv zeta.
    destruct (truthy _).
    + destruct (split_capabilities _).
      * destruct (setitem _ _ _).
        -- eexists _, _, _. split; [done|]. cbn. naive_solver.
        -- eexists _, _, _. split; [done|]. cbn. naive_solver.
      * eexists _, _, _. split; [done|]. cbn. naive_solver.
    + eexists _, _, _. split; [done|]. cbn. naive_solver.
  - unfold register_device_endpoint, try_except.
    rewrite run_lift_bind, Hbody, (Hexn e eq_refl).
    eexists _, _, _. split; [done|]. cbn. naive_solver.
Qed.

(** X23.  A device whose id is not yet a key is appended: the registry
    grows by one entry at the end, the session id in the answer counts the
    devices including the new one, and [/devices] then lists the earlier
    records in their order followed by the new record. *)
Theorem new_device_appended (d : dict) req st capability_list :
  let device_id := default JNull (d !! "device_id") in
  let entry :=
    device_record device_id
      (default (JStr "Unknown Device") (d !! "device_name"))
      (default (JStr "unknown") (d !! "device_type"))
      capability_list req in
  let st' :=
    set_registered_devices (registered_devices st ++ [(device_id, entry)])
      st in
  request_json req = Ok (JDict d) ->
  truthy device_id = true ->
  hashable device_id = true ->
  split_capabilities (default (JStr "") (d !! "capabilities")) =
    Ok capability_list ->
  getitem (registered_devices st) device_id = None ->
  register_device_endpoint str req st =
    (st',
     [logger INFO
        (device_registered device_id
           (default (JStr "Unknown Device") (d !! "device_name"))
           (default (JStr "") (d !! "capabilities")))],
     Ok (json_response
           (registered device_id (int (now req))
              (S (length (registered_devices st))) (port st)) 200)) ∧
  list_devices_endpoint st' =
    (st', [],
     Ok (json_response
           {[ "devices" :=
                JList (values (registered_devices st) ++ [entry]);
              "total_count" :=
                JInt (Z.of_nat (length (registered_devices st)) + 1) ]}
           200)).
Proof.
  intros device_id entry st' Hbody Hid Hhash Hsplit Hnew. split.
  - rewrite (register_run d) by done. cbv zeta.
    fold device_id. rewrite Hid, Hsplit. unfold setitem. rewrite Hhash.
    rewrite store_new by done. fold entry. fold st'.
    by rewrite length_app, Nat.add_1_r.
  - unfold list_devices_endpoint. rewrite run_gets_bind.
    cbn [registered_devices st' set_registered_devices].
    unfold values. rewrite fmap_app, length_app. cbn [fmap list_fmap snd length].
    by rewrite Nat2Z.inj_add.
Qed.

(** X24.  Registering an id that is already a key replaces its record in
    place: the keys and their order are unchanged, so the number of
    devices, and with it the count in the new session id, stays the same;
    the id then maps to the new record. *)
Theorem reregistration_in_place (d : dict) req st capability_list old :
  let device_id := default JNull (d !! "device_id") in
  let entry :=
    device_record device_id
      (default (JStr "Unknown Device") (d !! "device_name"))
      (default (JStr "unknown") (d !! "device_type"))
      capability_list req in
  request_json req = Ok (JDict d) ->
  truthy device_id = true ->
  hashable device_id = true ->
  split_capabilities (default (JStr "") (d !! "capabilities")) =
    Ok capability_list ->
  getitem (registered_devices st) device_id = Some old ->
  ∃ devices es,
    register_device_endpoint str req st =
      (set_registered_devices devices st, es,
       Ok (json_response
             (registered device_id (int (now req))
                (length (registered_devices st)) (port st)) 200)) ∧
    fst <$> devices = fst <$> registered_devices st ∧
    getitem devices device_id = Some entry.
Proof.
  intros device_id entry Hbody Hid Hhash Hsplit Hold.
  rewrite (register_run d) by done. cbv zeta.
  fold device_id. rewrite Hid, Hsplit. unfold setitem. rewrite Hhash.
  fold entry.
  destruct (store_old _ _ entry _ Hold)
    as (pre & k0 & post & Hdevices & Hk0 & Hstore).
  eexists _, _. split; [|split].
  - do 3 f_equal. rewrite Hstore, Hdevices. by rewrite !length_app.
  - rewrite Hstore, Hdevices. by rewrite !fmap_app.
  - by apply getitem_store.
Qed.

(** X25.  A registration touches one key only: whatever the request
    object, a key that is not equal to its device id maps to the same
    record after the request as before. *)
Theorem other_devices_untouched (d : dict) req st k :
  request_json req = Ok (JDict d) ->
  key_eq (default JNull (d !! "device_id")) k = false ->
  getitem (registered_devices (register_device_endpoint str req st).1.1) k =
    getitem (registered_devices st) k.
Proof.
  intros Hbody Hk. rewrite (register_run d) by done. cbv zeta.
  destruct (truthy _); [|done].
  destruct (split_capabilities _); [|done].
  unfold setitem. destruct (hashable _); [|done].
  cbn. by apply getitem_store_ne.
Qed.

(** X26.  Capabilities sent as a non-empty text are stored as the list of
    its comma-separated pieces: no stored piece contains a comma, and
    joining the stored pieces with commas gives the text back.  (The two
    together fix the pieces: the text is cut at every comma, and an empty
    piece stands between two adjacent commas.) *)
Theorem capabilities_round_trip (d : dict) req st s :
  let device_id := default JNull (d !! "device_id") in
  request_json req = Ok (JDict d) ->
  truthy device_id = true ->
  hashable device_id = true ->
  d !! "capabilities" = Some (JStr s) ->
  s ≠ ""%string ->
  ∃ pieces,
    getitem (registered_devices (register_device_endpoint str req st).1.1)
      device_id =
      Some (device_record device_id
              (default (JStr "Unknown Device") (d !! "device_name"))
              (default (JStr "unknown") (d !! "device_type"))
              (JList (JStr <$> pieces)) req) ∧
    Forall (fun piece => contains ","%char piece = false) pieces ∧
    join ","%char pieces = s.
Proof.
  intros device_id Hbody Hid Hhash Hcaps Hs.
  exists (split ","%char s).
  split; [|split; [apply split_no_separator | apply join_split]].
  rewrite (register_run d) by done. cbv zeta.
  fold device_id. rewrite Hid, Hcaps. cbn [from_option id].
  unfold split_capabilities. cbn [truthy].
  destruct (String.eqb_spec s "") as [->|_]; [done|]. cbn [negb].
  unfold setitem. rewrite Hhash. cbn. by apply getitem_store.
Qed.

(** X27.  Capabilities that are not text fail the registration: a number
    other than zero, [true], a non-empty list or object has no [split],
    so the handler logs the [AttributeError] and answers 500, and the
    device is not registered. *)
Theorem capabilities_must_be_text (d : dict) req st c :
  request_json req = Ok (JDict d) ->
  truthy (default JNull (d !! "device_id")) = true ->
  d !! "capabilities" = Some c ->
  truthy c = true ->
  (∀ s, c ≠ JStr s) ->
  register_device_endpoint str req st =
    (st, [logger ERROR (registration_failed AttributeError)],
     Ok (json_response (registration_failure str AttributeError) 500)).
Proof.
  intros Hbody Hid Hcaps Hc Htext.
  rewrite (register_run d) by done. cbv zeta.
  rewrite Hid, Hcaps. cbn [from_option id].
  unfold split_capabilities. rewrite Hc.
  destruct c; try done. by destruct (Htext s).
Qed.

(** X28.  A device id that is a non-empty list or object cannot be a key:
    with capabilities that are fine, the assignment raises [TypeError],
    the handler answers 500 and the registry is unchanged. *)
Theorem unhashable_id_refused (d : dict) req st capability_list :
  let device_id := default JNull (d !! "device_id") in
  request_json req = Ok (JDict d) ->
  truthy device_id = true ->
  hashable device_id = false ->
  split_capabilities (default (JStr "") (d !! "capabilities")) =
    Ok capability_list ->
  register_device_endpoint str req st =
    (st, [logger ERROR (registration_failed TypeError)],
     Ok (json_response (registration_failure str TypeError) 500)).
Proof.
  intros device_id Hbody Hid Hhash Hsplit.
  rewrite (register_run d) by done. cbv zeta.
  fold device_id. rewrite Hid, Hsplit. unfold setitem. by rewrite Hhash.
Qed.

End device_registry.

Section device_registry_examples.

Import Stdlib.Strings.Ascii.
Import HowdyTTSTestServer HowdyTTSTestServerHttp.

Lemma registration_needs_device_id_witness :
  truthy (JInt 0) = false ∧
  register_device_endpoint Examples.exn_text Examples.zero_id_post
    Examples.http_server =
    (Examples.http_server, [],
     Ok (json_response {[ "error" := JStr "device_id is required" ]} 400)).
Proof.
  split; [reflexivity|].
  apply (registration_needs_device_id Examples.exn_text
           Examples.zero_id_object); reflexivity.
Defined.

Lemma registration_all_or_nothing_witness :
  ∃ st' es resp,
    register_device_endpoint Examples.exn_text Examples.broken_post
      Examples.http_server = (st', es, Ok resp) ∧
    port st' = port Examples.http_server ∧
    active_sessions st' = active_sessions Examples.http_server ∧
    (status resp = 200 ∨
     (status resp = 400 ∨ status resp = 500) ∧ st' = Examples.http_server).
Proof.
  apply (registration_all_or_nothing Examples.exn_text Examples.broken_post).
  intros e H. injection H as <-. reflexivity.
Defined.

Lemma new_device_appended_witness :
  getitem (registered_devices Examples.http_server) (JStr "howdy-02") = None ∧
  register_device_endpoint Examples.exn_text Examples.second_post
    Examples.http_server =
    (Examples.http_server_after_second,
     [logger INFO
        (device_registered (JStr "howdy-02") (JStr "Unknown Device")
           (JStr "audio,display,touch"))],
     Ok (json_response
           (registered (JStr "howdy-02") 1762171260 2 8080) 200)) ∧
  list_devices_endpoint Examples.http_server_after_second =
    (Examples.http_server_after_second, [],
     Ok (json_response
           {[ "devices" :=
                JList (values (registered_devices Examples.http_server)
                         ++ [Examples.second_record]);
              "total_count" := JInt 2 ]}
           200)).
Proof.
  split; [reflexivity|].
  exact (new_device_appended Examples.exn_text Examples.second_object
           Examples.second_post Examples.http_server
           (JList [JStr "audio"; JStr "display"; JStr "touch"])
           eq_refl eq_refl eq_refl eq_refl eq_refl).
Defined.

Lemma reregistration_in_place_witness :
  getitem (registered_devices Examples.numbered_server) (JFloat 1) =
    Some (JDict {[ "device_id" := JInt 1 ]}) ∧
  ∃ devices es,
    register_device_endpoint Examples.exn_text Examples.float_id_post
      Examples.numbered_server =
      (set_registered_devices devices Examples.numbered_server, es,
       Ok (json_response (registered (JFloat 1) 1762171440 2 8080) 200)) ∧
    fst <$> devices = [JInt 1; JStr "howdy-01"] ∧
    getitem devices (JFloat 1) =
      Some (device_record (JFloat 1) (JStr "Porch") (JStr "unknown")
              (JList []) Examples.float_id_post).
Proof.
  split; [reflexivity|].
  exact (reregistration_in_place Examples.exn_text Examples.float_id_object
           Examples.float_id_post Examples.numbered_server (JList [])
           (JDict {[ "device_id" := JInt 1 ]})
           eq_refl eq_refl eq_refl eq_refl eq_refl).
Defined.

Lemma other_devices_untouched_witness :
  key_eq (JStr "howdy-02") (JStr "howdy-01") = false ∧
  getitem
    (registered_devices
       (register_device_endpoint Examples.exn_text Examples.second_post
          Examples.http_server).1.1)
    (JStr "howdy-01") =
    getitem (registered_devices Examples.http_server) (JStr "howdy-01").
Proof.
  split; [reflexivity|].
  apply (other_devices_untouched Examples.exn_text Examples.second_object);
    reflexivity.
Defined.

Lemma capabilities_round_trip_witness :
  ∃ pieces,
    getitem
      (registered_devices
         (register_device_endpoint Examples.exn_text Examples.second_post
            Examples.http_server).1.1)
      (JStr "howdy-02") =
      Some (device_record (JStr "howdy-02") (JStr "Unknown Device")
              (JStr "unknown") (JList (JStr <$> pieces))
              Examples.second_post) ∧
    Forall (fun piece => contains ","%char piece = false) pieces ∧
    join ","%char pieces = "audio,display,touch"%string.
Proof.
  apply (capabilities_round_trip Examples.exn_text Examples.second_object
           Examples.second_post Examples.http_server "audio,display,touch").
  - reflexivity.
  - reflexivity.
  - reflexivity.
  - reflexivity.
  - discriminate.
Defined.

Lemma capabilities_must_be_text_witness :
  truthy (JInt 3) = true ∧
  register_device_endpoint Examples.exn_text Examples.flags_post
    Examples.http_server =
    (Examples.http_server,
     [logger ERROR (registration_failed AttributeError)],
     Ok (json_response
           (registration_failure Examples.exn_text AttributeError) 500)).
Proof.
  split; [reflexivity|].
  apply (capabilities_must_be_text Examples.exn_text Examples.flags_object
           Examples.flags_post Examples.http_server (JInt 3)).
  - reflexivity.
  - reflexivity.
  - reflexivity.
  - reflexivity.
  - intros s. discriminate.
Defined.

Lemma unhashable_id_refused_witness :
  hashable (JList [JStr "howdy-04"]) = false ∧
  register_device_endpoint Examples.exn_text Examples.list_id_post
    Examples.http_server =
    (Examples.http_server,
     [logger ERROR (registration_failed TypeError)],
     Ok (json_response
           (registration_failure Examples.exn_text TypeError) 500)).
Proof.
  split; [reflexivity|].
  apply (unhashable_id_refused Examples.exn_text Examples.list_id_object
           Examples.list_id_post Examples.http_server (JList []));
    reflexivity.
Defined.

End device_registry_examples.
